(** * yorisoi-voice-ai: the chat relay of [server.mjs]

    A shallow embedding of the request handler of [server.mjs] (sentiment
    scoring, ICF tagging, danger detection, the safety reply and the two
    outbound calls) together with the properties stated about it.

    Conventions of the embedding:
    - a JavaScript string is its sequence of UTF-16 code units ([jsstring]);
      literals are written as in the source through [js], which decodes the
      UTF-8 bytes of a Rocq string literal into code units;
    - the score is a JavaScript number that only ever takes integer values
      (70 adjusted by multiples of 5, clamped), hence a [Z];
    - the module-level [let] variables live in [Globals]; every outbound call
      is recorded, in order, in the [sent] log of the run;
    - an exception is an outcome of its own ([Thrown]) that keeps the state
      reached so far: JavaScript has no rollback;
    - one request runs to completion before the next one starts. *)

From Stdlib Require Import List ZArith NArith String Ascii Bool Lia DecimalString.
Import ListNotations.

(** ** JavaScript strings *)

Definition jsstring : Type := list N.

Definition utf8_tail (b : N) : N := N.land b 0x3F.

(** Code points of a UTF-8 byte sequence (well-formed input is assumed: the
    literals of this file). *)
Fixpoint utf8_code_points (bs : list N) : list N :=
  match bs with
  | [] => []
  | b0 :: r0 =>
    if (b0 <? 0x80)%N then b0 :: utf8_code_points r0
    else
      match r0 with
      | [] => []
      | b1 :: r1 =>
        if (b0 <? 0xE0)%N then
          N.lor (N.shiftl (N.land b0 0x1F) 6) (utf8_tail b1) :: utf8_code_points r1
        else
          match r1 with
          | [] => []
          | b2 :: r2 =>
            if (b0 <? 0xF0)%N then
              N.lor (N.shiftl (N.land b0 0x0F) 12)
                (N.lor (N.shiftl (utf8_tail b1) 6) (utf8_tail b2))
              :: utf8_code_points r2
            else
              match r2 with
              | [] => []
              | b3 :: r3 =>
                N.lor (N.shiftl (N.land b0 0x07) 18)
                  (N.lor (N.shiftl (utf8_tail b1) 12)
                     (N.lor (N.shiftl (utf8_tail b2) 6) (utf8_tail b3)))
                :: utf8_code_points r3
              end
          end
      end
  end.

(** UTF-16 code units of one code point. *)
Definition utf16_units (cp : N) : list N :=
  if (cp <? 0x10000)%N then [cp]
  else
    let c := (cp - 0x10000)%N in
    [(0xD800 + N.shiftr c 10)%N; (0xDC00 + N.land c 0x3FF)%N].

(** A string literal of the source. *)
Definition js (s : string) : jsstring :=
  flat_map utf16_units
    (utf8_code_points (map N_of_ascii (list_ascii_of_string s))).

(** The escape [\n] of the source's literals. *)
Definition nl : jsstring := [10%N].

Definition code_units_eqb (a b : N) : bool := N.eqb a b.

(** [starts_with w s]: the code units of [s] at index 0 are those of [w]. *)
Fixpoint starts_with (w s : jsstring) : bool :=
  match w, s with
  | [], _ => true
  | _ :: _, [] => false
  | a :: w', b :: s' => code_units_eqb a b && starts_with w' s'
  end.

(** [String.prototype.includes(searchString)] with the default position 0:
    some index [i] of [s] has the code units of [w] from [i] on. *)
Fixpoint includes (s w : jsstring) : bool :=
  starts_with w s ||
  match s with
  | [] => false
  | _ :: s' => includes s' w
  end.

(** "[w] occurs in [s] as a substring". *)
Definition occurs_in (w s : jsstring) : Prop :=
  exists pre post, s = pre ++ w ++ post.

(** [Array.prototype.join] on strings. *)
Fixpoint join (sep : jsstring) (l : list jsstring) : jsstring :=
  match l with
  | [] => []
  | [x] => x
  | x :: rest => x ++ sep ++ join sep rest
  end.

(** ** Word lists *)

Definition negativeWords : list jsstring :=
  [js "疲れ"; js "つらい"; js "不安"; js "悲しい"; js "こわい"; js "もうだめ";
   js "消えたい"; js "死にたい"; js "いやだ"].

Definition positiveWords : list jsstring :=
  [js "うれしい"; js "楽しい"; js "安心"; js "大丈夫"; js "できた";
   js "ありがとう"; js "ほっと"].

Definition dangerWords : list jsstring :=
  [js "死にたい"; js "消えたい"; js "自殺"; js "限界"; js "もう無理"].

(** ** Data of the request cycle *)

Module DomainTag.
Record t := { code : jsstring; label : jsstring }.
End DomainTag.

Module IcfTags.
(** Modelled from the spec: [icf-tags.json], the parsed content of which is
    the constant [icfTags], is not among the sources.  Per the spec's data
    model it maps each of the eight category names to a [{code, label}]
    tag; the handler reads exactly these eight properties. *)
Record t := {
  sleep : DomainTag.t;
  emotion : DomainTag.t;
  stress : DomainTag.t;
  learning : DomainTag.t;
  school : DomainTag.t;
  relationships : DomainTag.t;
  family : DomainTag.t;
  work : DomainTag.t
}.
End IcfTags.

Module HistoryEntry.
Record t := { time : Z; score : Z }.
End HistoryEntry.

Module ChatMessage.
Record t := { role : jsstring; content : jsstring }.
End ChatMessage.

Module ChatCompletionRequest.
Record t := {
  model : jsstring;
  messages : list ChatMessage.t;
  max_tokens : Z
}.
End ChatCompletionRequest.

Module Choice.
Record t := { message : ChatMessage.t }.
End Choice.

Module ChatCompletion.
Record t := { choices : list Choice.t }.
End ChatCompletion.

Module SpeechRequest.
Record t := { model : jsstring; voice : jsstring; input : jsstring }.
End SpeechRequest.

(** [req.body] of [POST /api/chat]: a parsed JSON object whose [message]
    property is absent ([None]) or a string. *)
Module ChatRequestBody.
Record t := { message : option jsstring }.
End ChatRequestBody.

Module ChatReply.
Record t := {
  text : jsstring;
  audio : jsstring;
  danger : bool;
  score : Z;
  icf : list DomainTag.t
}.
End ChatReply.

Inductive ResponseBody :=
| ChatBody (reply : ChatReply.t)
| ErrorBody (error : jsstring).

Record HttpResponse := { status : Z; body : ResponseBody }.

(** ** Effects: module state, outbound calls, exceptions *)

Inductive exn :=
| ApiError (detail : jsstring)
| TypeError.

Inductive outcome (A : Type) :=
| Returned (a : A)
| Thrown (e : exn).
Arguments Returned {A} a.
Arguments Thrown {A} e.

(** The module-level [let] variables. *)
Record Globals := {
  emotionScore : Z;
  emotionHistory : list HistoryEntry.t
}.

(** A call that left the process. *)
Inductive Outbound :=
| ChatCompletionsCreate (request : ChatCompletionRequest.t)
| AudioSpeechCreate (request : SpeechRequest.t).

(** What the outside answers during one request: the clock and the two
    OpenAI endpoints (the speech endpoint answers with the audio bytes).
    A request reads the clock once and calls each endpoint at most once, so
    an answer per request value loses nothing. *)
Record Env := {
  clock : Z;
  chat_completions : ChatCompletionRequest.t -> outcome ChatCompletion.t;
  audio_speech : SpeechRequest.t -> outcome (list N)
}.

(** State of a run: the globals and the outbound calls made so far. *)
Record Run := { globals : Globals; sent : list Outbound }.

Definition M (A : Type) : Type := Env -> Run -> outcome A * Run.

Definition ret {A} (a : A) : M A := fun _ st => (Returned a, st).

Definition bind {A B} (m : M A) (k : A -> M B) : M B :=
  fun env st =>
    match m env st with
    | (Returned a, st') => k a env st'
    | (Thrown e, st') => (Thrown e, st')
    end.

Definition throw {A} (e : exn) : M A := fun _ st => (Thrown e, st).

(** [try { body } catch (err) { handler }]. *)
Definition try_catch {A} (body : M A) (handler : exn -> M A) : M A :=
  fun env st =>
    match body env st with
    | (Returned a, st') => (Returned a, st')
    | (Thrown e, st') => handler e env st'
    end.

Declare Scope js_scope.
Delimit Scope js_scope with js.
Notation "x <- m ;; k" := (bind m (fun x => k))
  (at level 61, m at next level, right associativity) : js_scope.
Notation "m ;; k" := (bind m (fun _ => k))
  (at level 61, right associativity) : js_scope.
Open Scope js_scope.

Definition read_emotionScore : M Z :=
  fun _ st => (Returned (emotionScore (globals st)), st).

Definition write_emotionScore (v : Z) : M unit :=
  fun _ st =>
    (Returned tt,
     {| globals := {| emotionScore := v;
                      emotionHistory := emotionHistory (globals st) |};
        sent := sent st |}).

Definition read_emotionHistory : M (list HistoryEntry.t) :=
  fun _ st => (Returned (emotionHistory (globals st)), st).

(** [emotionHistory.push(entry)]. *)
Definition emotionHistory_push (entry : HistoryEntry.t) : M unit :=
  fun _ st =>
    (Returned tt,
     {| globals := {| emotionScore := emotionScore (globals st);
                      emotionHistory := emotionHistory (globals st) ++ [entry] |};
        sent := sent st |}).

(** [Date.now()]. *)
Definition Date_now : M Z := fun env st => (Returned (clock env), st).

(** [await client.chat.completions.create(request)]. *)
Definition client_chat_completions_create (request : ChatCompletionRequest.t)
  : M ChatCompletion.t :=
  fun env st =>
    (chat_completions env request,
     {| globals := globals st;
        sent := sent st ++ [ChatCompletionsCreate request] |}).

(** [await client.audio.speech.create(request)] followed by
    [await speech.arrayBuffer()]: the bytes of the synthesized audio. *)
Definition client_audio_speech_create (request : SpeechRequest.t)
  : M (list N) :=
  fun env st =>
    (audio_speech env request,
     {| globals := globals st;
        sent := sent st ++ [AudioSpeechCreate request] |}).

(** State of the process when the module has been loaded. *)
Definition initial_globals : Globals :=
  {| emotionScore := 70; emotionHistory := [] |}.

Definition fresh_run (g : Globals) : Run := {| globals := g; sent := [] |}.

(** ** The functions of [server.mjs] *)

Local Open Scope Z_scope.

(** [Array.prototype.push] on a local array. *)
Definition push {A} (l : list A) (x : A) : list A := l ++ [x].

(** [value || ""] for a property that is absent or a string: the empty
    string is falsy as well. *)
Definition or_empty (value : option jsstring) : jsstring :=
  match value with
  | Some (c :: s) => c :: s
  | Some [] => []
  | None => []
  end.

(** Template-literal conversion of a number with an integer value. *)
Definition number_to_string (z : Z) : jsstring :=
  js (NilZero.string_of_int (Z.to_int z)).

Definition base64_alphabet : jsstring :=
  js "ABCDEFGHIJKLMNOPQRSTUVWXYZabcdefghijklmnopqrstuvwxyz0123456789+/".

Definition base64_digit (i : N) : N := nth (N.to_nat i) base64_alphabet 0%N.

Definition base64_pad : N := 61%N.

(** [Buffer.prototype.toString("base64")]. *)
Fixpoint base64 (bytes : list N) : jsstring :=
  match bytes with
  | [] => []
  | [a] =>
    [base64_digit (N.shiftr a 2);
     base64_digit (N.shiftl (N.land a 3) 4);
     base64_pad; base64_pad]
  | [a; b] =>
    [base64_digit (N.shiftr a 2);
     base64_digit (N.lor (N.shiftl (N.land a 3) 4) (N.shiftr b 4));
     base64_digit (N.shiftl (N.land b 15) 2);
     base64_pad]
  | a :: b :: c :: rest =>
    base64_digit (N.shiftr a 2)
    :: base64_digit (N.lor (N.shiftl (N.land a 3) 4) (N.shiftr b 4))
    :: base64_digit (N.lor (N.shiftl (N.land b 15) 2) (N.shiftr c 6))
    :: base64_digit (N.land c 63)
    :: base64 rest
  end.

Definition updateEmotionScore (text : jsstring) : M Z :=
  score <- read_emotionScore ;;
  let score :=
    fold_left (fun score w => if includes text w then score - 5 else score)
      negativeWords score in
  let score :=
    fold_left (fun score w => if includes text w then score + 5 else score)
      positiveWords score in
  let score := Z.max 0 (Z.min 100 score) in
  write_emotionScore score ;;
  now <- Date_now ;;
  emotionHistory_push {| HistoryEntry.time := now; HistoryEntry.score := score |} ;;
  ret score.

Definition detectDanger (text : jsstring) : bool :=
  existsb (fun w => includes text w) dangerWords.

Definition dangerResponse : jsstring :=
  js "今、とてもつらい気持ちなのですね。あなたの気持ちは大切で、" ++
  js "ひとりで抱えなくて大丈夫です。" ++ nl ++ nl ++
  js "安心できる大人や、信頼できる先生・家族と一緒に話してもらえると安全です。" ++
  js "私はここにいますが、命に関わる内容では専門家の力も必要です。" ++ nl ++ nl ++
  js "まずは深呼吸を一つしてみませんか？" ++ nl ++
  js "吸う息を４つ数えながら、吐く息を６つ数えながら、ゆっくりで大丈夫です。".

Definition breathingGuide : jsstring :=
  nl ++ nl ++ js "少しだけ呼吸を整える時間を一緒にとりましょう。" ++
  js "無理のない範囲で大丈夫です。" ++ nl ++
  js "① 鼻から4秒かけて吸う" ++ nl ++
  js "② 2秒そのまま" ++ nl ++
  js "③ 口から6秒かけてゆっくり吐く" ++ nl ++
  js "あなたのペースでOKですからね。".

Definition systemPrompt (icfList : list DomainTag.t) (emotionScore : Z) : jsstring :=
  nl ++
  js "あなたは「寄り添い型AIパートナー」です。" ++ nl ++
  js "・診断・指示命令・否定・価値観押しつけは禁止" ++ nl ++
  js "・専門的判断（医療・法律）はしない" ++ nl ++
  js "・子どもの気持ちを大切にし、安心感を優先" ++ nl ++
  js "・ゆっくり優しく、相手の言葉を繰り返しながら共感する" ++ nl ++
  js "・ICF情報があれば参考にしつつ、軽く触れる程度に" ++ nl ++
  js "・emotionScoreが50未満のときは、落ち着かせる言葉を少し多めに入れる" ++ nl ++
  nl ++
  js "【ICFヒント】" ++ nl ++
  join (js ", ")
    (map (fun x => DomainTag.code x ++ js ":" ++ DomainTag.label x) icfList) ++ nl ++
  nl ++
  js "【emotionScore】" ++ nl ++
  number_to_string emotionScore ++ nl.

(** The local constant [chatRequest] of [generateAIResponse]. *)
Definition chatRequest (userText : jsstring) (icfList : list DomainTag.t)
    (emotionScore : Z) : ChatCompletionRequest.t :=
  {| ChatCompletionRequest.model := js "gpt-4o-mini";
     ChatCompletionRequest.messages :=
       [ {| ChatMessage.role := js "system";
            ChatMessage.content := systemPrompt icfList emotionScore |};
         {| ChatMessage.role := js "user";
            ChatMessage.content := userText |} ];
     ChatCompletionRequest.max_tokens := 200 |}.

Definition generateAIResponse (userText : jsstring) (icfList : list DomainTag.t)
    (emotionScore : Z) : M jsstring :=
  res <- client_chat_completions_create (chatRequest userText icfList emotionScore) ;;
  match ChatCompletion.choices res with
  | [] => throw TypeError
  | choice :: _ => ret (ChatMessage.content (Choice.message choice))
  end.

(** The argument of [client.audio.speech.create] in [synthesizeVoice]. *)
Definition speechRequest (text : jsstring) : SpeechRequest.t :=
  {| SpeechRequest.model := js "gpt-4o-mini-tts";
     SpeechRequest.voice := js "alloy";
     SpeechRequest.input := text |}.

Definition synthesizeVoice (text : jsstring) : M jsstring :=
  buffer <- client_audio_speech_create (speechRequest text) ;;
  ret (base64 buffer).

(** [res.json(reply)]. *)
Definition res_json (reply : ChatReply.t) : M HttpResponse :=
  ret {| status := 200; body := ChatBody reply |}.

(** [res.status(500).json({ error })]. *)
Definition res_status_500_json (error : jsstring) : M HttpResponse :=
  ret {| status := 500; body := ErrorBody error |}.

(** ** Notions used in the statements *)

(** The eight categories, in declaration order. *)
Inductive Category :=
| Sleep | Emotion | Stress | Learning | School | Relationships | Family | Work.

Definition categories : list Category :=
  [Sleep; Emotion; Stress; Learning; School; Relationships; Family; Work].

(** The substrings associated with a category. *)
Definition category_words (c : Category) : list jsstring :=
  match c with
  | Sleep => [js "眠"; js "寝"]
  | Emotion => [js "不安"; js "怖"]
  | Stress => [js "疲"; js "忙"]
  | Learning => [js "勉強"; js "テスト"]
  | School => [js "学校"]
  | Relationships => [js "友"; js "人間関係"]
  | Family => [js "家"; js "親"]
  | Work => [js "仕事"; js "職場"]
  end.

(** Any of the category's substrings appears in [text]. *)
Definition category_matches (text : jsstring) (c : Category) : bool :=
  existsb (fun w => includes text w) (category_words c).

(** [text] contains none of [words]. *)
Definition none_occurs (words : list jsstring) (text : jsstring) : Prop :=
  forall w, In w words -> ~ occurs_in w text.

Definition score_in_range (score : Z) : Prop := 0 <= score <= 100.

(** The score [updateEmotionScore] arrives at from the current one. *)
Definition score_after (text : jsstring) (score : Z) : Z :=
  Z.max 0 (Z.min 100
    (fold_left (fun score w => if includes text w then score + 5 else score)
       positiveWords
       (fold_left (fun score w => if includes text w then score - 5 else score)
          negativeWords score))).

(** The completion requests among the outbound calls of a log. *)
Fixpoint completion_calls (log : list Outbound) : list ChatCompletionRequest.t :=
  match log with
  | [] => []
  | ChatCompletionsCreate request :: rest => request :: completion_calls rest
  | AudioSpeechCreate _ :: rest => completion_calls rest
  end.

(** A succession of [updateEmotionScore] calls, each with the outside of its
    moment (only its clock is read): the scores returned, and the run
    reached. *)
Fixpoint update_all (calls : list (Env * jsstring)) (st : Run) : list Z * Run :=
  match calls with
  | [] => ([], st)
  | (env, text) :: rest =>
    match updateEmotionScore text env st with
    | (Returned score, st') =>
      let (scores, st'') := update_all rest st' in
      (score :: scores, st'')
    | (Thrown _, st') => ([], st')
    end
  end.

(** The text the chat handler works on. *)
Definition userText_of (req_body : ChatRequestBody.t) : jsstring :=
  or_empty (ChatRequestBody.message req_body).

(** The number of entries of [words] that occur in [text]. *)
Definition hits (text : jsstring) (words : list jsstring) : Z :=
  Z.of_nat (List.length (filter (fun w => includes text w) words)).

(** The speech requests among the outbound calls of a log. *)
Fixpoint speech_calls (log : list Outbound) : list SpeechRequest.t :=
  match log with
  | [] => []
  | ChatCompletionsCreate _ :: rest => speech_calls rest
  | AudioSpeechCreate request :: rest => request :: speech_calls rest
  end.

(** What holds of the module variables between requests: the score is a
    multiple of 5 in [0,100], so is every recorded score, and the last
    recorded score is the current one (70 while nothing is recorded). *)
Definition consistent (g : Globals) : Prop :=
  score_in_range (emotionScore g)
  /\ (5 | emotionScore g)
  /\ Forall (fun entry => score_in_range (HistoryEntry.score entry)
                          /\ (5 | HistoryEntry.score entry))
       (emotionHistory g)
  /\ emotionScore g
     = last (map HistoryEntry.score (emotionHistory g)) 70.

(** The reader's side of [base64] (RFC 4648, with padding): the bytes a
    base64 text stands for, if it is one. *)
Local Open Scope N_scope.

(** Position of [c] in [l], counted from [i]. *)
Fixpoint index_of (c : N) (l : list N) (i : N) : option N :=
  match l with
  | [] => None
  | x :: l' => if N.eqb x c then Some i else index_of c l' (N.succ i)
  end.

Definition base64_value (c : N) : option N := index_of c base64_alphabet 0.

Fixpoint base64_decode (s : jsstring) : option (list N) :=
  match s with
  | [] => Some []
  | c0 :: c1 :: c2 :: c3 :: rest =>
    match base64_value c0, base64_value c1 with
    | Some v0, Some v1 =>
      let a := N.lor (N.shiftl v0 2) (N.shiftr v1 4) in
      if N.eqb c2 base64_pad then
        match rest with
        | [] => if N.eqb c3 base64_pad then Some [a] else None
        | _ :: _ => None
        end
      else
        match base64_value c2 with
        | Some v2 =>
          let b := N.lor (N.shiftl (N.land v1 15) 4) (N.shiftr v2 2) in
          if N.eqb c3 base64_pad then
            match rest with
            | [] => Some [a; b]
            | _ :: _ => None
            end
          else
            match base64_value c3 with
            | Some v3 =>
              let c := N.lor (N.shiftl (N.land v2 3) 6) v3 in
              match base64_decode rest with
              | Some bytes => Some (a :: b :: c :: bytes)
              | None => None
              end
            | None => None
            end
        | None => None
        end
    | _, _ => None
    end
  | _ => None
  end.

(** The numbers below [n]. *)
Definition below (n : nat) : list N := map N.of_nat (seq 0 n).

(** The four 6-bit groups [base64] cuts three bytes into. *)
Definition sextet0 (a : N) := N.shiftr a 2.
Definition sextet1 (a b : N) := N.lor (N.shiftl (N.land a 3) 4) (N.shiftr b 4).
Definition sextet2 (b c : N) := N.lor (N.shiftl (N.land b 15) 2) (N.shiftr c 6).
Definition sextet3 (c : N) := N.land c 63.

(** The bit identities between two bytes and their 6-bit groups, as a
    check that runs. *)
Definition pair_ok (a b : N) : bool :=
  (sextet0 a <? 64) && (sextet1 a b <? 64) && (sextet2 a b <? 64) && (sextet3 a <? 64)
  && (N.lor (N.shiftl (sextet0 a) 2) (N.shiftr (sextet1 a b) 4) =? a)
  && (N.land (sextet1 a b) 15 =? N.shiftr b 4)
  && (N.shiftr (sextet2 a b) 2 =? N.land a 15)
  && (N.land (sextet2 a b) 3 =? N.shiftr b 6)
  && (N.lor (N.shiftl (N.shiftr a 4) 4) (N.land a 15) =? a)
  && (N.lor (N.shiftl (N.shiftr a 6) 6) (sextet3 a) =? a).

Local Open Scope Z_scope.

(** ** A sample table and outside, for concrete runs *)

Definition sample_tag (code label : string) : DomainTag.t :=
  {| DomainTag.code := js code; DomainTag.label := js label |}.

Definition sample_icfTags : IcfTags.t :=
  {| IcfTags.sleep := sample_tag "b134" "sleep";
     IcfTags.emotion := sample_tag "b152" "emotion";
     IcfTags.stress := sample_tag "d240" "stress";
     IcfTags.learning := sample_tag "d155" "learning";
     IcfTags.school := sample_tag "d820" "school";
     IcfTags.relationships := sample_tag "d750" "relationships";
     IcfTags.family := sample_tag "d760" "family";
     IcfTags.work := sample_tag "d850" "work" |}.

Definition sample_completion (content : jsstring) : ChatCompletion.t :=
  {| ChatCompletion.choices :=
       [ {| Choice.message :=
              {| ChatMessage.role := js "assistant";
                 ChatMessage.content := content |} |} ] |}.

(** Both endpoints answer. *)
Definition sample_env : Env :=
  {| clock := 1700000000000;
     chat_completions := fun _ => Returned (sample_completion (js "そうなんですね。"));
     audio_speech := fun _ => Returned [73%N; 68%N; 51%N] |}.

(** The speech endpoint fails. *)
Definition speechless_env : Env :=
  {| clock := 1700000000000;
     chat_completions := fun _ => Returned (sample_completion (js "そうなんですね。"));
     audio_speech := fun _ => Thrown (ApiError (js "quota")) |}.

Definition request_of (message : string) : ChatRequestBody.t :=
  {| ChatRequestBody.message := Some (js message) |}.

Section Server.

(** The parsed [icf-tags.json]. *)
Variable icfTags : IcfTags.t.

Definition detectICF (text : jsstring) : list DomainTag.t :=
  let detected := [] in
  let detected :=
    if includes text (js "眠") || includes text (js "寝")
    then push detected (IcfTags.sleep icfTags) else detected in
  let detected :=
    if includes text (js "不安") || includes text (js "怖")
    then push detected (IcfTags.emotion icfTags) else detected in
  let detected :=
    if includes text (js "疲") || includes text (js "忙")
    then push detected (IcfTags.stress icfTags) else detected in
  let detected :=
    if includes text (js "勉強") || includes text (js "テスト")
    then push detected (IcfTags.learning icfTags) else detected in
  let detected :=
    if includes text (js "学校")
    then push detected (IcfTags.school icfTags) else detected in
  let detected :=
    if includes text (js "友") || includes text (js "人間関係")
    then push detected (IcfTags.relationships icfTags) else detected in
  let detected :=
    if includes text (js "家") || includes text (js "親")
    then push detected (IcfTags.family icfTags) else detected in
  let detected :=
    if includes text (js "仕事") || includes text (js "職場")
    then push detected (IcfTags.work icfTags) else detected in
  detected.

(** The response of the [catch] block. *)
Definition server_error_response : HttpResponse :=
  {| status := 500; body := ErrorBody (js "server_error") |}.

(** [app.post("/api/chat", ...)]: the response sent for a request body. *)
Definition api_chat (req_body : ChatRequestBody.t) : M HttpResponse :=
  try_catch
    (let userText := or_empty (ChatRequestBody.message req_body) in
     score <- updateEmotionScore userText ;;
     let icfList := detectICF userText in
     if detectDanger userText then
       let safeText := dangerResponse in
       voice <- synthesizeVoice safeText ;;
       res_json {| ChatReply.text := safeText;
                   ChatReply.audio := voice;
                   ChatReply.danger := true;
                   ChatReply.score := score;
                   ChatReply.icf := icfList |}
     else
       aiText <- generateAIResponse userText icfList score ;;
       let aiText := if score <? 50 then aiText ++ breathingGuide else aiText in
       voice <- synthesizeVoice aiText ;;
       res_json {| ChatReply.text := aiText;
                   ChatReply.audio := voice;
                   ChatReply.danger := false;
                   ChatReply.score := score;
                   ChatReply.icf := icfList |})
    (fun err => res_status_500_json (js "server_error")).

(** [app.get("/api/emotion-history", ...)]. *)
Definition api_emotion_history : M (list HistoryEntry.t) :=
  read_emotionHistory.

(** The category's tag in the table. *)
Definition category_tag (c : Category) : DomainTag.t :=
  match c with
  | Sleep => IcfTags.sleep icfTags
  | Emotion => IcfTags.emotion icfTags
  | Stress => IcfTags.stress icfTags
  | Learning => IcfTags.learning icfTags
  | School => IcfTags.school icfTags
  | Relationships => IcfTags.relationships icfTags
  | Family => IcfTags.family icfTags
  | Work => IcfTags.work icfTags
  end.

(** The tagger in the specification's words: the tags of the categories
    that match, in declaration order. *)
Definition detect_by_category (text : jsstring) : list DomainTag.t :=
  map category_tag (filter (category_matches text) categories).

(** The states of the module variables the process can be in: the one at
    start, and the one a chat request leaves behind. *)
Inductive reachable : Globals -> Prop :=
| reachable_start : reachable initial_globals
| reachable_chat g req_body env log :
    reachable g ->
    reachable (globals (snd (api_chat req_body env {| globals := g; sent := log |}))).


(** * Properties *)

(** ** Literals and substring search: basic facts *)

Example js_literal_units : js "疲れ" = [0x75B2%N; 0x308C%N].
Proof. reflexivity. Qed.

Example js_literal_ascii : js "OK" = [79%N; 75%N].
Proof. reflexivity. Qed.

Lemma starts_with_spec (w s : jsstring) :
  starts_with w s = true <-> exists post, s = w ++ post.
Proof.
  revert s. induction w as [| a w IH]; intros s; simpl.
  - split; [intros _; now exists s | reflexivity].
  - destruct s as [| b s].
    + split; [discriminate | intros [post H]; discriminate].
    + rewrite andb_true_iff, IH. unfold code_units_eqb. rewrite N.eqb_eq.
      split.
      * intros [-> [post ->]]. now exists post.
      * intros [post H]. injection H as -> ->. split; [reflexivity | now exists post].
Qed.

Lemma includes_spec (s w : jsstring) :
  includes s w = true <-> occurs_in w s.
Proof.
  unfold occurs_in. induction s as [| b s IH].
  - simpl. rewrite orb_false_r, starts_with_spec. split.
    + intros [post H]. now exists [], post.
    + intros [pre [post H]]. destruct pre as [| x pre]; [| discriminate].
      now exists post.
  - cbn [includes]. rewrite orb_true_iff, starts_with_spec, IH. split.
    + intros [[post H] | [pre [post H]]].
      * now exists [], post.
      * exists (b :: pre), post. simpl. now rewrite H.
    + intros [pre [post H]]. destruct pre as [| x pre].
      * left. now exists post.
      * right. simpl in H. injection H as _ H. now exists pre, post.
Qed.

Lemma includes_false_iff (s w : jsstring) :
  includes s w = false <-> ~ occurs_in w s.
Proof.
  rewrite <- includes_spec. destruct (includes s w); split; congruence.
Qed.

Lemma includes_self (w : jsstring) : includes w w = true.
Proof. apply includes_spec. exists [], []. simpl. now rewrite app_nil_r. Qed.

(** ** The scorer *)

Lemma scan_unchanged (text : jsstring) (f : Z -> Z) (words : list jsstring) (score : Z) :
  none_occurs words text ->
  fold_left (fun score w => if includes text w then f score else score) words score
  = score.
Proof.
  unfold none_occurs. induction words as [| w words IH]; intros Hnone; simpl.
  - reflexivity.
  - assert (Hw : includes text w = false).
    { apply includes_false_iff, Hnone. now left. }
    rewrite Hw. apply IH. intros w' Hin. apply Hnone. now right.
Qed.

(** What [updateEmotionScore] computes: the score it returns, the value it
    leaves in [emotionScore], and the entry it pushes. *)
Lemma updateEmotionScore_run (text : jsstring) (env : Env) (st : Run) :
  updateEmotionScore text env st
  = (Returned (score_after text (emotionScore (globals st))),
     {| globals :=
          {| emotionScore := score_after text (emotionScore (globals st));
             emotionHistory :=
               emotionHistory (globals st)
               ++ [{| HistoryEntry.time := clock env;
                      HistoryEntry.score := score_after text (emotionScore (globals st)) |}] |};
        sent := sent st |}).
Proof. reflexivity. Qed.

Lemma score_after_in_range (text : jsstring) (score : Z) :
  score_in_range (score_after text score).
Proof. unfold score_in_range, score_after. lia. Qed.

Lemma score_after_no_keyword (text : jsstring) (score : Z) :
  none_occurs negativeWords text ->
  none_occurs positiveWords text ->
  score_in_range score ->
  score_after text score = score.
Proof.
  intros Hneg Hpos Hrange. unfold score_after.
  rewrite (scan_unchanged text (fun s => s - 5) negativeWords _ Hneg).
  rewrite (scan_unchanged text (fun s => s + 5) positiveWords _ Hpos).
  unfold score_in_range in Hrange. lia.
Qed.
Lemma none_occurs_check (words : list jsstring) (text : jsstring) :
  forallb (fun w => negb (includes text w)) words = true -> none_occurs words text.
Proof.
  intros Hall w Hin. rewrite forallb_forall in Hall. specialize (Hall w Hin).
  apply includes_false_iff. now destruct (includes text w).
Qed.

(** ** The two gateways *)

Lemma or_empty_some (text : jsstring) : or_empty (Some text) = text.
Proof. destruct text; reflexivity. Qed.

Lemma synthesizeVoice_run (text : jsstring) (env : Env) (st : Run) :
  synthesizeVoice text env st
  = (match audio_speech env (speechRequest text) with
     | Returned buffer => Returned (base64 buffer)
     | Thrown e => Thrown e
     end,
     {| globals := globals st;
        sent := sent st ++ [AudioSpeechCreate (speechRequest text)] |}).
Proof.
  unfold synthesizeVoice, bind, client_audio_speech_create, ret.
  destruct (audio_speech env _); reflexivity.
Qed.

Lemma generateAIResponse_run (userText : jsstring) (icfList : list DomainTag.t)
    (score : Z) (env : Env) (st : Run) :
  generateAIResponse userText icfList score env st
  = (match chat_completions env (chatRequest userText icfList score) with
     | Returned res =>
       match ChatCompletion.choices res with
       | [] => Thrown TypeError
       | choice :: _ => Returned (ChatMessage.content (Choice.message choice))
       end
     | Thrown e => Thrown e
     end,
     {| globals := globals st;
        sent := sent st ++ [ChatCompletionsCreate (chatRequest userText icfList score)] |}).
Proof.
  unfold generateAIResponse, bind, client_chat_completions_create.
  destruct (chat_completions env _) as [res | e]; [| reflexivity].
  destruct (ChatCompletion.choices res); reflexivity.
Qed.

(** ** The chat handler, branch by branch *)

Lemma api_chat_run (req_body : ChatRequestBody.t) (env : Env) (st : Run) :
  let userText := userText_of req_body in
  let score := score_after userText (emotionScore (globals st)) in
  let st1 := snd (updateEmotionScore userText env st) in
  api_chat req_body env st
  = if detectDanger userText then
      match synthesizeVoice dangerResponse env st1 with
      | (Returned voice, st2) =>
        (Returned {| status := 200;
                     body := ChatBody {| ChatReply.text := dangerResponse;
                                         ChatReply.audio := voice;
                                         ChatReply.danger := true;
                                         ChatReply.score := score;
                                         ChatReply.icf := detectICF userText |} |},
         st2)
      | (Thrown _, st2) => (Returned server_error_response, st2)
      end
    else
      match generateAIResponse userText (detectICF userText) score env st1 with
      | (Returned aiText, st2) =>
        let aiText := if score <? 50 then aiText ++ breathingGuide else aiText in
        match synthesizeVoice aiText env st2 with
        | (Returned voice, st3) =>
          (Returned {| status := 200;
                       body := ChatBody {| ChatReply.text := aiText;
                                           ChatReply.audio := voice;
                                           ChatReply.danger := false;
                                           ChatReply.score := score;
                                           ChatReply.icf := detectICF userText |} |},
           st3)
        | (Thrown _, st3) => (Returned server_error_response, st3)
        end
      | (Thrown _, st2) => (Returned server_error_response, st2)
      end.
Proof.
  cbv zeta. unfold api_chat, try_catch, userText_of.
  set (userText := or_empty (ChatRequestBody.message req_body)).
  unfold bind at 1. rewrite updateEmotionScore_run. cbn [snd].
  destruct (detectDanger userText).
  - unfold bind, res_json, ret.
    destruct (synthesizeVoice dangerResponse env _) as [[voice | e] st2]; reflexivity.
  - unfold bind at 1.
    destruct (generateAIResponse userText (detectICF userText) _ env _)
      as [[aiText | e] st2]; [| reflexivity].
    unfold bind, res_json, ret.
    destruct (synthesizeVoice _ env st2) as [[voice | e] st3]; reflexivity.
Qed.
(** ** Danger detection *)

Lemma detectDanger_spec (text : jsstring) :
  detectDanger text = true <-> exists w, In w dangerWords /\ occurs_in w text.
Proof.
  unfold detectDanger. rewrite existsb_exists.
  split; intros [w [Hin Hw]]; exists w; split; trivial; now apply includes_spec.
Qed.

(** C4. [detectDanger text] is true exactly when some word of [dangerWords]
    occurs in [text] as a substring; each danger word, taken as the whole
    text, is detected; and the result is false exactly when no danger word
    occurs. *)
Theorem detectDanger_iff_some_danger_word_occurs :
  (forall text,
     detectDanger text = true <-> exists w, In w dangerWords /\ occurs_in w text)
  /\ Forall (fun w => detectDanger w = true) dangerWords
  /\ (forall text, detectDanger text = false <-> none_occurs dangerWords text).
Proof.
  split; [exact detectDanger_spec |]. split.
  - apply Forall_forall. intros w Hin. apply detectDanger_spec.
    exists w. split; [exact Hin |]. apply includes_spec, includes_self.
  - intros text. unfold none_occurs. split.
    + intros Hfalse w Hin Hocc.
      assert (Htrue : detectDanger text = true).
      { apply detectDanger_spec. now exists w. }
      congruence.
    + intros Hnone. destruct (detectDanger text) eqn:Hd; [| reflexivity].
      apply detectDanger_spec in Hd. destruct Hd as [w [Hin Hocc]].
      now destruct (Hnone w Hin).
Qed.

(** ** The score and its history *)

Lemma update_all_run (calls : list (Env * jsstring)) (st : Run) :
  score_in_range (emotionScore (globals st)) ->
  List.length (fst (update_all calls st)) = List.length calls
  /\ Forall score_in_range (fst (update_all calls st))
  /\ score_in_range (emotionScore (globals (snd (update_all calls st)))).
Proof.
  revert st. induction calls as [| [env text] calls IH]; intros st Hst.
  - simpl. auto.
  - cbn [update_all]. rewrite updateEmotionScore_run.
    match goal with
    | |- context [update_all calls ?st1] =>
      destruct (IH st1) as [Hlen [Hall Hlast]];
      [apply score_after_in_range | destruct (update_all calls st1) as [scores st2]]
    end.
    cbn [fst snd List.length] in *. split; [| split].
    + now rewrite Hlen.
    + constructor; [apply score_after_in_range | exact Hall].
    + exact Hlast.
Qed.

(** C3. Starting from a score in [0,100], any succession of
    [updateEmotionScore] calls returns, call by call, a score in [0,100]
    (an integer: the scores are in [Z]), and leaves [emotionScore] in
    [0,100]. *)
Theorem score_stays_in_range (calls : list (Env * jsstring)) (st : Run) :
  score_in_range (emotionScore (globals st)) ->
  List.length (fst (update_all calls st)) = List.length calls
  /\ Forall (fun score => 0 <= score <= 100) (fst (update_all calls st))
  /\ 0 <= emotionScore (globals (snd (update_all calls st))) <= 100.
Proof. exact (update_all_run calls st). Qed.

Lemma updateEmotionScore_no_keyword (text : jsstring) (env : Env) (st : Run) :
  score_in_range (emotionScore (globals st)) ->
  none_occurs negativeWords text ->
  none_occurs positiveWords text ->
  fst (updateEmotionScore text env st) = Returned (emotionScore (globals st))
  /\ emotionScore (globals (snd (updateEmotionScore text env st)))
     = emotionScore (globals st).
Proof.
  intros Hrange Hneg Hpos. rewrite updateEmotionScore_run. cbn [fst snd globals emotionScore].
  now rewrite (score_after_no_keyword text _ Hneg Hpos Hrange).
Qed.

(** C7. When [text] contains no negative and no positive word,
    [updateEmotionScore text] returns the score it found and leaves
    [emotionScore] as it was. *)
Theorem update_without_keyword_keeps_score (text : jsstring) (env : Env) (st : Run) :
  score_in_range (emotionScore (globals st)) ->
  none_occurs negativeWords text ->
  none_occurs positiveWords text ->
  fst (updateEmotionScore text env st) = Returned (emotionScore (globals st))
  /\ emotionScore (globals (snd (updateEmotionScore text env st)))
     = emotionScore (globals st).
Proof. exact (updateEmotionScore_no_keyword text env st). Qed.

(** C10. At start [emotionScore] is 70 and [emotionHistory] is empty; the
    first [updateEmotionScore] after start, on a text without sentiment
    words, returns 70. *)
Theorem first_update_returns_70 :
  emotionScore initial_globals = 70
  /\ emotionHistory initial_globals = []
  /\ (forall text env,
        none_occurs negativeWords text ->
        none_occurs positiveWords text ->
        fst (updateEmotionScore text env (fresh_run initial_globals)) = Returned 70).
Proof.
  split; [reflexivity |]. split; [reflexivity |].
  intros text env Hneg Hpos.
  apply (updateEmotionScore_no_keyword text env (fresh_run initial_globals));
    trivial.
  unfold score_in_range. simpl. lia.
Qed.
(** ** What a request leaves behind *)

Lemma api_chat_globals (req_body : ChatRequestBody.t) (env : Env) (st : Run) :
  globals (snd (api_chat req_body env st))
  = globals (snd (updateEmotionScore (userText_of req_body) env st)).
Proof.
  rewrite api_chat_run. cbv zeta. destruct (detectDanger _).
  - rewrite synthesizeVoice_run. destruct (audio_speech env _); reflexivity.
  - rewrite generateAIResponse_run.
    destruct (chat_completions env _) as [res | e]; [| reflexivity].
    destruct (ChatCompletion.choices res) as [| choice others]; [reflexivity |].
    rewrite synthesizeVoice_run. destruct (audio_speech env _); reflexivity.
Qed.

Lemma reachable_score_in_range (g : Globals) :
  reachable g -> score_in_range (emotionScore g).
Proof.
  intros Hg. destruct Hg as [| g req_body env log _].
  - unfold score_in_range. simpl. lia.
  - rewrite api_chat_globals, updateEmotionScore_run. apply score_after_in_range.
Qed.

(** C9. A call of [updateEmotionScore] returns a score, stores it in
    [emotionScore] and appends exactly the entry [{time: now, score}] to
    [emotionHistory], whose earlier entries all stay; and whatever the chat
    handler answers, the error response of a failed gateway included, the
    module variables are those [updateEmotionScore] wrote. *)
Theorem update_appends_one_entry_and_is_kept :
  (forall text env st,
     exists score,
       fst (updateEmotionScore text env st) = Returned score
       /\ emotionScore (globals (snd (updateEmotionScore text env st))) = score
       /\ emotionHistory (globals (snd (updateEmotionScore text env st)))
          = emotionHistory (globals st)
            ++ [{| HistoryEntry.time := clock env; HistoryEntry.score := score |}])
  /\ (forall req_body env st,
        globals (snd (api_chat req_body env st))
        = globals (snd (updateEmotionScore (userText_of req_body) env st)))
  /\ (forall req_body env st,
        fst (api_chat req_body env st) = Returned server_error_response ->
        exists score,
          emotionScore (globals (snd (api_chat req_body env st))) = score
          /\ emotionHistory (globals (snd (api_chat req_body env st)))
             = emotionHistory (globals st)
               ++ [{| HistoryEntry.time := clock env; HistoryEntry.score := score |}]).
Proof.
  split; [| split].
  - intros text env st. rewrite updateEmotionScore_run. eexists. cbn [fst snd globals emotionScore emotionHistory].
    split; [reflexivity |]. split; reflexivity.
  - exact api_chat_globals.
  - intros req_body env st _. rewrite api_chat_globals, updateEmotionScore_run.
    eexists. cbn [snd globals emotionScore emotionHistory]. split; reflexivity.
Qed.

Lemma api_emotion_history_run (env : Env) (st : Run) :
  api_emotion_history env st = (Returned (emotionHistory (globals st)), st).
Proof. reflexivity. Qed.

(** In every state the process can be in, a text without sentiment words
    leaves the score as it is. *)
Corollary reachable_update_without_keyword
    (text : jsstring) (env : Env) (g : Globals) (log : list Outbound) :
  reachable g ->
  none_occurs negativeWords text ->
  none_occurs positiveWords text ->
  fst (updateEmotionScore text env {| globals := g; sent := log |})
  = Returned (emotionScore g).
Proof.
  intros Hg Hneg Hpos.
  apply (updateEmotionScore_no_keyword text env {| globals := g; sent := log |});
    trivial.
  now apply reachable_score_in_range.
Qed.

(** ** The danger branch *)

Lemma api_chat_danger_run (req_body : ChatRequestBody.t) (env : Env) (st : Run) :
  detectDanger (userText_of req_body) = true ->
  api_chat req_body env st
  = (match audio_speech env (speechRequest dangerResponse) with
     | Returned buffer =>
       Returned
         {| status := 200;
            body := ChatBody
              {| ChatReply.text := dangerResponse;
                 ChatReply.audio := base64 buffer;
                 ChatReply.danger := true;
                 ChatReply.score :=
                   score_after (userText_of req_body) (emotionScore (globals st));
                 ChatReply.icf := detectICF (userText_of req_body) |} |}
     | Thrown _ => Returned server_error_response
     end,
     {| globals := globals (snd (updateEmotionScore (userText_of req_body) env st));
        sent := sent st ++ [AudioSpeechCreate (speechRequest dangerResponse)] |}).
Proof.
  intros Hdanger. rewrite api_chat_run. cbv zeta. rewrite Hdanger.
  rewrite synthesizeVoice_run, updateEmotionScore_run. cbn [snd globals sent].
  destruct (audio_speech env _); reflexivity.
Qed.

Lemma completion_calls_app (log1 log2 : list Outbound) :
  completion_calls (log1 ++ log2) = completion_calls log1 ++ completion_calls log2.
Proof.
  induction log1 as [| [request | request] log1 IH]; simpl; congruence.
Qed.

(** C1. When the message text contains a danger word, the chat handler
    makes no completion call: its one outbound call is the speech synthesis
    of [dangerResponse]; any reply it sends carries [dangerResponse],
    unchanged, as its text, and it sends that reply whenever the speech
    call succeeds. *)
Theorem danger_bypasses_completion
    (req_body : ChatRequestBody.t) (text : jsstring) (env : Env) (st : Run) :
  ChatRequestBody.message req_body = Some text ->
  (exists w, In w dangerWords /\ occurs_in w text) ->
  completion_calls (sent (snd (api_chat req_body env st))) = completion_calls (sent st)
  /\ sent (snd (api_chat req_body env st))
     = sent st ++ [AudioSpeechCreate (speechRequest dangerResponse)]
  /\ (forall resp reply,
        fst (api_chat req_body env st) = Returned resp ->
        body resp = ChatBody reply ->
        ChatReply.text reply = dangerResponse)
  /\ (forall buffer,
        audio_speech env (speechRequest dangerResponse) = Returned buffer ->
        exists reply,
          fst (api_chat req_body env st)
          = Returned {| status := 200; body := ChatBody reply |}
          /\ ChatReply.text reply = dangerResponse
          /\ ChatReply.danger reply = true).
Proof.
  intros Hmsg Hword.
  assert (Hdanger : detectDanger (userText_of req_body) = true).
  { unfold userText_of. rewrite Hmsg, or_empty_some. now apply detectDanger_spec. }
  rewrite (api_chat_danger_run req_body env st Hdanger). cbn [fst snd sent].
  split; [| split; [reflexivity | split]].
  - rewrite completion_calls_app. simpl. apply app_nil_r.
  - intros resp reply Hresp Hbody.
    destruct (audio_speech env _) as [buffer | e];
      injection Hresp as <-; simpl in Hbody; [| discriminate].
    injection Hbody as <-. reflexivity.
  - intros buffer ->. eexists. split; [reflexivity |]. split; reflexivity.
Qed.

(** C2 (as amended). When danger is detected, any reply the chat handler
    sends has [danger] set and carries exactly [dangerResponse] as its text:
    the empathetic message closed by its own short breathing prompt (breathe
    in counting four, out counting six).  The script of [breathingGuide]
    (4 s in, 2 s hold, 6 s out) is no part of that text. *)
Theorem danger_reply_is_dangerResponse
    (req_body : ChatRequestBody.t) (env : Env) (st : Run)
    (resp : HttpResponse) (reply : ChatReply.t) :
  detectDanger (userText_of req_body) = true ->
  fst (api_chat req_body env st) = Returned resp ->
  body resp = ChatBody reply ->
  ChatReply.danger reply = true
  /\ ChatReply.text reply = dangerResponse
  /\ (exists empathetic,
        ChatReply.text reply
        = empathetic
          ++ js "まずは深呼吸を一つしてみませんか？" ++ nl
          ++ js "吸う息を４つ数えながら、吐く息を６つ数えながら、ゆっくりで大丈夫です。")
  /\ includes (ChatReply.text reply) breathingGuide = false
  /\ includes (ChatReply.text reply) (js "2秒") = false.
Proof.
  intros Hdanger Hresp Hbody.
  rewrite (api_chat_danger_run req_body env st Hdanger) in Hresp. cbn [fst] in Hresp.
  destruct (audio_speech env _) as [buffer | e];
    injection Hresp as <-; simpl in Hbody; [| discriminate].
  injection Hbody as <-. cbn [ChatReply.danger ChatReply.text].
  split; [reflexivity |]. split; [reflexivity |]. split; [| split].
  - eexists. unfold dangerResponse. rewrite !app_assoc. reflexivity.
  - vm_compute. reflexivity.
  - vm_compute. reflexivity.
Qed.
(** ** The completion branch *)

Lemma api_chat_completion_run (req_body : ChatRequestBody.t) (env : Env) (st : Run) :
  let userText := userText_of req_body in
  let score := score_after userText (emotionScore (globals st)) in
  let request := chatRequest userText (detectICF userText) score in
  detectDanger userText = false ->
  exists rest,
    sent (snd (api_chat req_body env st))
    = sent st ++ ChatCompletionsCreate request :: rest
    /\ forall res choice others buffer,
         chat_completions env request = Returned res ->
         ChatCompletion.choices res = choice :: others ->
         let aiText := ChatMessage.content (Choice.message choice) in
         let aiText := if score <? 50 then aiText ++ breathingGuide else aiText in
         audio_speech env (speechRequest aiText) = Returned buffer ->
         fst (api_chat req_body env st)
         = Returned
             {| status := 200;
                body := ChatBody
                  {| ChatReply.text := aiText;
                     ChatReply.audio := base64 buffer;
                     ChatReply.danger := false;
                     ChatReply.score := score;
                     ChatReply.icf := detectICF userText |} |}.
Proof.
  cbv zeta. intros Hsafe. rewrite api_chat_run. cbv zeta. rewrite Hsafe.
  rewrite generateAIResponse_run, updateEmotionScore_run. cbn [snd globals sent].
  destruct (chat_completions env _) as [res | e].
  - destruct (ChatCompletion.choices res) as [| choice others] eqn:Hchoices.
    + exists []. split; [reflexivity |]. intros res' choice' others' buffer Hres.
      injection Hres as <-. rewrite Hchoices. discriminate.
    + rewrite synthesizeVoice_run. cbn [globals sent].
      eexists. split.
      * destruct (audio_speech env _); cbn [snd sent]; rewrite <- app_assoc; reflexivity.
      * intros res' choice' others' buffer Hres. injection Hres as <-.
        rewrite Hchoices. intros Heq. injection Heq as <- <-.
        intros ->. reflexivity.
  - exists []. split; [reflexivity |]. intros res choice others buffer Hres. discriminate.
Qed.

(** C5. When danger is not detected and the chat handler sends a reply, the
    completion gateway has returned a text and the reply carries that text
    followed by [breathingGuide] if the updated score is below 50, and that
    text alone if the score is 50 or more. *)
Theorem low_score_appends_breathingGuide
    (req_body : ChatRequestBody.t) (env : Env) (st : Run)
    (resp : HttpResponse) (reply : ChatReply.t) :
  detectDanger (userText_of req_body) = false ->
  fst (api_chat req_body env st) = Returned resp ->
  body resp = ChatBody reply ->
  exists score st1 aiText st2,
    updateEmotionScore (userText_of req_body) env st = (Returned score, st1)
    /\ generateAIResponse (userText_of req_body)
         (detectICF (userText_of req_body)) score env st1
       = (Returned aiText, st2)
    /\ ChatReply.danger reply = false
    /\ ChatReply.score reply = score
    /\ (score < 50 -> ChatReply.text reply = aiText ++ breathingGuide)
    /\ (50 <= score -> ChatReply.text reply = aiText).
Proof.
  intros Hsafe Hresp Hbody. rewrite api_chat_run in Hresp. cbv zeta in Hresp.
  rewrite Hsafe in Hresp.
  set (score := score_after (userText_of req_body) (emotionScore (globals st))) in *.
  destruct (generateAIResponse _ _ score env _) as [[aiText | e] st2] eqn:Hgen.
  - exists score, (snd (updateEmotionScore (userText_of req_body) env st)), aiText, st2.
    split; [rewrite updateEmotionScore_run; reflexivity |].
    split; [exact Hgen |].
    destruct (synthesizeVoice _ env st2) as [[voice | e] st3];
      cbn [fst] in Hresp; injection Hresp as <-; simpl in Hbody; [| discriminate].
    injection Hbody as <-. cbn [ChatReply.danger ChatReply.score ChatReply.text].
    split; [reflexivity |]. split; [reflexivity |]. split; intros Hscore.
    + apply Z.ltb_lt in Hscore. now rewrite Hscore.
    + apply Z.ltb_ge in Hscore. now rewrite Hscore.
  - cbn [fst] in Hresp. injection Hresp as <-. discriminate.
Qed.

(** ** The tagger *)

Lemma category_matches_spec (text : jsstring) (c : Category) :
  category_matches text c = true
  <-> exists w, In w (category_words c) /\ occurs_in w text.
Proof.
  unfold category_matches. rewrite existsb_exists.
  split; intros [w [Hin Hw]]; exists w; split; trivial; now apply includes_spec.
Qed.

Lemma detectICF_by_category (text : jsstring) :
  detectICF text = detect_by_category text.
Proof.
  unfold detectICF, detect_by_category, category_matches, push.
  cbn [categories filter map existsb category_words category_tag].
  rewrite !orb_false_r.
  repeat match goal with
         | |- context [if ?c then _ else _] => destruct c
         end; reflexivity.
Qed.

(** C6. [detectICF] is a function of the text (and the tag table) alone.
    Its result is the list of the tags of the matching categories, taken in
    the declaration order sleep, emotion, stress, learning, school,
    relationships, family, work; so it has at most 8 entries, each the tag
    of one of the 8 categories, and a category contributes its tag exactly
    when one of its 1 or 2 substrings occurs in the text. *)
Theorem detectICF_lists_matching_categories_in_order (text : jsstring) :
  categories = [Sleep; Emotion; Stress; Learning; School; Relationships; Family; Work]
  /\ detectICF text = map category_tag (filter (category_matches text) categories)
  /\ (forall c, In c (filter (category_matches text) categories)
                <-> exists w, In w (category_words c) /\ occurs_in w text)
  /\ (forall c, 1 <= List.length (category_words c) <= 2)%nat
  /\ (List.length (detectICF text) <= 8)%nat
  /\ Forall (fun tag => In tag (map category_tag categories)) (detectICF text).
Proof.
  split; [reflexivity |]. split; [apply detectICF_by_category |]. split; [| split; [| split]].
  - intros c. rewrite filter_In, category_matches_spec. split.
    + now intros [_ H].
    + intros H. split; [destruct c; simpl; tauto | exact H].
  - intros c. destruct c; simpl; lia.
  - rewrite detectICF_by_category. unfold detect_by_category.
    rewrite length_map.
    apply (Nat.le_trans _ (List.length categories)); [apply filter_length_le | reflexivity].
  - rewrite detectICF_by_category. unfold detect_by_category.
    apply Forall_forall. intros tag Hin. apply in_map_iff in Hin.
    destruct Hin as [c [<- Hc]]. apply in_map. apply filter_In in Hc. tauto.
Qed.
(** ** The handler always answers *)

Lemma api_chat_responds (req_body : ChatRequestBody.t) (env : Env) (st : Run) :
  exists resp, fst (api_chat req_body env st) = Returned resp.
Proof.
  rewrite api_chat_run. cbv zeta.
  destruct (detectDanger _).
  - destruct (synthesizeVoice _ env _) as [[voice | e] st2]; eexists; reflexivity.
  - destruct (generateAIResponse _ _ _ env _) as [[aiText | e] st2];
      [| eexists; reflexivity].
    destruct (synthesizeVoice _ env st2) as [[voice | e] st3]; eexists; reflexivity.
Qed.

(** In the completion branch the error response comes from a gateway: the
    completion call threw or answered without a choice, or the speech call
    threw. *)
Lemma api_chat_completion_error (req_body : ChatRequestBody.t) (env : Env) (st : Run) :
  let userText := userText_of req_body in
  let score := score_after userText (emotionScore (globals st)) in
  let request := chatRequest userText (detectICF userText) score in
  detectDanger userText = false ->
  fst (api_chat req_body env st) = Returned server_error_response ->
  (exists e, chat_completions env request = Thrown e)
  \/ (exists res, chat_completions env request = Returned res
                  /\ ChatCompletion.choices res = [])
  \/ (exists text e, audio_speech env (speechRequest text) = Thrown e).
Proof.
  cbv zeta. intros Hsafe. rewrite api_chat_run. cbv zeta. rewrite Hsafe.
  rewrite generateAIResponse_run.
  destruct (chat_completions env _) as [res | e]; [| intros _; left; now exists e].
  destruct (ChatCompletion.choices res) as [| choice others] eqn:Hchoices;
    [intros _; right; left; now exists res |].
  rewrite synthesizeVoice_run.
  destruct (audio_speech env (speechRequest ?[text])) as [buffer | e] eqn:Hspeech.
  - cbn [fst]. intros Hresp. discriminate.
  - intros _. right. right. eexists. exists e. exact Hspeech.
Qed.

(** ** A request without [message] *)

Lemma score_after_empty_text (score : Z) :
  score_in_range score -> score_after [] score = score.
Proof.
  intros Hrange. unfold score_after. simpl. unfold score_in_range in Hrange. lia.
Qed.

Lemma detectICF_empty_text : detectICF [] = [].
Proof. reflexivity. Qed.

Lemma detectDanger_empty_text : detectDanger [] = false.
Proof. reflexivity. Qed.

(** C8. A request body without [message] is served as the request with the
    empty message is: the text is the empty string, no tag and no danger is
    detected, [emotionScore] keeps its value, the first outbound call is the
    completion request whose user text is empty, and when both gateways
    answer, the reply (status 200) has no tags, [danger] false and the
    unchanged score.  The handler always answers, and it answers with the
    error response only when a gateway failed. *)
Theorem missing_message_is_served_as_empty_text (env : Env) (st : Run) :
  let req_body := {| ChatRequestBody.message := None |} in
  let score := emotionScore (globals st) in
  score_in_range score ->
  userText_of req_body = []
  /\ api_chat req_body env st
     = api_chat {| ChatRequestBody.message := Some [] |} env st
  /\ detectICF (userText_of req_body) = []
  /\ detectDanger (userText_of req_body) = false
  /\ emotionScore (globals (snd (api_chat req_body env st))) = score
  /\ (exists rest,
        sent (snd (api_chat req_body env st))
        = sent st ++ ChatCompletionsCreate (chatRequest [] [] score) :: rest)
  /\ (forall res choice others buffer,
        chat_completions env (chatRequest [] [] score) = Returned res ->
        ChatCompletion.choices res = choice :: others ->
        let aiText := ChatMessage.content (Choice.message choice) in
        let aiText := if score <? 50 then aiText ++ breathingGuide else aiText in
        audio_speech env (speechRequest aiText) = Returned buffer ->
        fst (api_chat req_body env st)
        = Returned
            {| status := 200;
               body := ChatBody
                 {| ChatReply.text := aiText;
                    ChatReply.audio := base64 buffer;
                    ChatReply.danger := false;
                    ChatReply.score := score;
                    ChatReply.icf := [] |} |})
  /\ (exists resp, fst (api_chat req_body env st) = Returned resp)
  /\ (fst (api_chat req_body env st) = Returned server_error_response ->
      (exists e, chat_completions env (chatRequest [] [] score) = Thrown e)
      \/ (exists res, chat_completions env (chatRequest [] [] score) = Returned res
                      /\ ChatCompletion.choices res = [])
      \/ (exists text e, audio_speech env (speechRequest text) = Thrown e)).
Proof.
  cbv zeta. intros Hrange.
  set (req_body := {| ChatRequestBody.message := None |}).
  assert (Htext : userText_of req_body = []) by reflexivity.
  split; [exact Htext |]. split; [reflexivity |].
  split; [rewrite Htext; apply detectICF_empty_text |].
  split; [rewrite Htext; apply detectDanger_empty_text |].
  split.
  - rewrite api_chat_globals, updateEmotionScore_run, Htext.
    cbn [snd globals emotionScore]. now apply score_after_empty_text.
  - pose proof (api_chat_completion_run req_body env st) as Hrun. cbv zeta in Hrun.
    rewrite Htext, detectICF_empty_text, (score_after_empty_text _ Hrange) in Hrun.
    destruct (Hrun detectDanger_empty_text) as [rest [Hsent Hreply]].
    split; [now exists rest |]. split; [exact Hreply |].
    split; [apply api_chat_responds |].
    pose proof (api_chat_completion_error req_body env st) as Herr. cbv zeta in Herr.
    rewrite Htext, detectICF_empty_text, (score_after_empty_text _ Hrange) in Herr.
    exact (Herr detectDanger_empty_text).
Qed.

(** * Further properties of the code *)

(** ** The scorer in closed form *)

Lemma scan_adds_per_hit (text : jsstring) (f : Z -> Z) (delta : Z)
    (words : list jsstring) (score : Z) :
  (forall s, f s = s + delta) ->
  fold_left (fun score w => if includes text w then f score else score) words score
  = score + delta * hits text words.
Proof.
  intros Hf. unfold hits. revert score.
  induction words as [| w words IH]; intros score; cbn [fold_left filter].
  - simpl. lia.
  - rewrite IH. destruct (includes text w); cbn [List.length]; [rewrite Hf |]; lia.
Qed.

Lemma score_after_closed_form (text : jsstring) (score : Z) :
  score_after text score
  = Z.max 0 (Z.min 100
      (score - 5 * hits text negativeWords + 5 * hits text positiveWords)).
Proof.
  unfold score_after.
  rewrite (scan_adds_per_hit text (fun s => s - 5) (-5)) by (intros; lia).
  rewrite (scan_adds_per_hit text (fun s => s + 5) 5) by (intros; lia).
  f_equal. f_equal. lia.
Qed.

Lemma hits_bounds (text : jsstring) (words : list jsstring) :
  0 <= hits text words <= Z.of_nat (List.length words).
Proof.
  unfold hits. split; [lia |]. apply Nat2Z.inj_le, filter_length_le.
Qed.

Lemma hits_none (text : jsstring) (words : list jsstring) :
  none_occurs words text -> hits text words = 0.
Proof.
  unfold hits, none_occurs. induction words as [| w words IH]; intros Hnone.
  - reflexivity.
  - cbn [filter].
    assert (Hw : includes text w = false).
    { apply includes_false_iff, Hnone. now left. }
    rewrite Hw. apply IH. intros w' Hin. apply Hnone. now right.
Qed.

(** X1. [updateEmotionScore] moves the score by 5 per listed word that
    occurs in the text, however often the word occurs: it returns the
    current score minus 5 for each negative word found, plus 5 for each
    positive word found, clamped to [0,100]; at most 9 negative and 7
    positive words can be found, and no word is listed twice. *)
Theorem update_counts_each_listed_word_once (text : jsstring) (env : Env) (st : Run) :
  fst (updateEmotionScore text env st)
  = Returned
      (Z.max 0 (Z.min 100
         (emotionScore (globals st)
          - 5 * hits text negativeWords + 5 * hits text positiveWords)))
  /\ 0 <= hits text negativeWords <= 9
  /\ 0 <= hits text positiveWords <= 7
  /\ NoDup negativeWords
  /\ NoDup positiveWords.
Proof.
  split; [| split; [| split; [| split]]].
  - rewrite updateEmotionScore_run. cbn [fst]. now rewrite score_after_closed_form.
  - apply (hits_bounds text negativeWords).
  - apply (hits_bounds text positiveWords).
  - vm_compute. repeat (constructor; [simpl; intuition discriminate |]). constructor.
  - vm_compute. repeat (constructor; [simpl; intuition discriminate |]). constructor.
Qed.

(** X2. From a score in [0,100], one [updateEmotionScore] lowers the score
    by at most 45 and raises it by at most 35; a text without positive
    words never raises it, a text without negative words never lowers
    it. *)
Theorem update_moves_score_within_bounds (text : jsstring) (env : Env) (st : Run) :
  score_in_range (emotionScore (globals st)) ->
  exists score,
    fst (updateEmotionScore text env st) = Returned score
    /\ emotionScore (globals st) - 45 <= score <= emotionScore (globals st) + 35
    /\ (none_occurs positiveWords text -> score <= emotionScore (globals st))
    /\ (none_occurs negativeWords text -> emotionScore (globals st) <= score).
Proof.
  intros Hrange. rewrite updateEmotionScore_run. eexists. split; [reflexivity |].
  rewrite score_after_closed_form.
  pose proof (hits_bounds text negativeWords) as Hneg.
  pose proof (hits_bounds text positiveWords) as Hpos.
  change (Z.of_nat (List.length negativeWords)) with 9 in Hneg.
  change (Z.of_nat (List.length positiveWords)) with 7 in Hpos.
  unfold score_in_range in Hrange.
  split; [lia |]. split; intros Hnone; rewrite (hits_none _ _ Hnone); lia.
Qed.

(** ** Invariants of the module variables *)

Lemma clamp_multiple_of_5 (score : Z) :
  (5 | score) -> (5 | Z.max 0 (Z.min 100 score)).
Proof.
  intros Hdiv.
  destruct (Z.max_spec 0 (Z.min 100 score)) as [[_ ->] | [_ ->]].
  - destruct (Z.min_spec 100 score) as [[_ ->] | [_ ->]]; [now exists 20 | exact Hdiv].
  - now exists 0.
Qed.

Lemma score_after_multiple_of_5 (text : jsstring) (score : Z) :
  (5 | score) -> (5 | score_after text score).
Proof.
  intros [k ->]. rewrite score_after_closed_form. apply clamp_multiple_of_5.
  exists (k - hits text negativeWords + hits text positiveWords). lia.
Qed.

Lemma last_app_one {A} (l : list A) (x d : A) : last (l ++ [x]) d = x.
Proof.
  induction l as [| y l IH]; [reflexivity |].
  simpl. destruct (l ++ [x]) eqn:Happ; [now destruct l | exact IH].
Qed.


Lemma update_keeps_consistent (text : jsstring) (env : Env) (st : Run) :
  consistent (globals st) ->
  consistent (globals (snd (updateEmotionScore text env st))).
Proof.
  intros [Hrange [Hdiv [Hall Hlast]]]. rewrite updateEmotionScore_run.
  unfold consistent. cbn [snd globals emotionScore emotionHistory].
  split; [apply score_after_in_range |].
  split; [now apply score_after_multiple_of_5 |]. split.
  - apply Forall_app. split; [exact Hall |]. constructor; [| constructor].
    cbn [HistoryEntry.score].
    split; [apply score_after_in_range | now apply score_after_multiple_of_5].
  - rewrite map_app. cbn [map HistoryEntry.score]. now rewrite last_app_one.
Qed.

Lemma initial_globals_consistent : consistent initial_globals.
Proof.
  unfold consistent, score_in_range. simpl.
  split; [lia |]. split; [now exists 14 |]. split; [constructor | reflexivity].
Qed.

Lemma reachable_consistent (g : Globals) : reachable g -> consistent g.
Proof.
  intros Hg. induction Hg as [| g req_body env log _ IH].
  - exact initial_globals_consistent.
  - rewrite api_chat_globals.
    exact (update_keeps_consistent _ env {| globals := g; sent := log |} IH).
Qed.

(** X3. In every state the process can be in, [emotionScore] is a multiple
    of 5 in [0,100], every score recorded in [emotionHistory] is one too,
    and [emotionScore] is the score of the last entry recorded (70 while
    the history is empty). *)
Theorem reachable_globals_are_consistent (g : Globals) :
  reachable g ->
  score_in_range (emotionScore g)
  /\ (5 | emotionScore g)
  /\ Forall (fun entry => score_in_range (HistoryEntry.score entry)
                          /\ (5 | HistoryEntry.score entry))
       (emotionHistory g)
  /\ emotionScore g = last (map HistoryEntry.score (emotionHistory g)) 70.
Proof. exact (reachable_consistent g). Qed.

(** ** Requests one after the other *)



(** ** The handler, case by case *)

Lemma api_chat_cases (req_body : ChatRequestBody.t) (env : Env) (st : Run) :
  let userText := userText_of req_body in
  let score := score_after userText (emotionScore (globals st)) in
  let g1 := globals (snd (updateEmotionScore userText env st)) in
  let request := chatRequest userText (detectICF userText) score in
  let reply text buffer :=
    {| status := 200;
       body := ChatBody {| ChatReply.text := text;
                           ChatReply.audio := base64 buffer;
                           ChatReply.danger := detectDanger userText;
                           ChatReply.score := score;
                           ChatReply.icf := detectICF userText |} |} in
  api_chat req_body env st
  = if detectDanger userText then
      (match audio_speech env (speechRequest dangerResponse) with
       | Returned buffer => Returned (reply dangerResponse buffer)
       | Thrown _ => Returned server_error_response
       end,
       {| globals := g1;
          sent := sent st ++ [AudioSpeechCreate (speechRequest dangerResponse)] |})
    else
      match chat_completions env request with
      | Returned res =>
        match ChatCompletion.choices res with
        | [] =>
          (Returned server_error_response,
           {| globals := g1; sent := sent st ++ [ChatCompletionsCreate request] |})
        | choice :: _ =>
          let aiText := ChatMessage.content (Choice.message choice) in
          let aiText := if score <? 50 then aiText ++ breathingGuide else aiText in
          (match audio_speech env (speechRequest aiText) with
           | Returned buffer => Returned (reply aiText buffer)
           | Thrown _ => Returned server_error_response
           end,
           {| globals := g1;
              sent := sent st ++ [ChatCompletionsCreate request;
                                  AudioSpeechCreate (speechRequest aiText)] |})
        end
      | Thrown _ =>
        (Returned server_error_response,
         {| globals := g1; sent := sent st ++ [ChatCompletionsCreate request] |})
      end.
Proof.
  cbv zeta. rewrite api_chat_run. cbv zeta.
  destruct (detectDanger (userText_of req_body)).
  - rewrite synthesizeVoice_run. destruct (audio_speech env _); reflexivity.
  - rewrite generateAIResponse_run.
    destruct (chat_completions env _) as [res | e]; [| reflexivity].
    destruct (ChatCompletion.choices res) as [| choice others]; [reflexivity |].
    rewrite synthesizeVoice_run. cbn [globals sent]. rewrite <- app_assoc.
    destruct (audio_speech env _); reflexivity.
Qed.



(** X6. Whenever the chat handler sends a reply, its last outbound call is
    the speech synthesis of exactly the reply's text (the appended
    breathing guide included), and the reply's audio is the base64 text of
    the bytes that call answered. *)
Theorem reply_audio_is_speech_of_reply_text
    (req_body : ChatRequestBody.t) (env : Env) (st : Run)
    (resp : HttpResponse) (reply : ChatReply.t) :
  fst (api_chat req_body env st) = Returned resp ->
  body resp = ChatBody reply ->
  exists buffer before,
    audio_speech env (speechRequest (ChatReply.text reply)) = Returned buffer
    /\ ChatReply.audio reply = base64 buffer
    /\ sent (snd (api_chat req_body env st))
       = sent st ++ before ++ [AudioSpeechCreate (speechRequest (ChatReply.text reply))]
    /\ speech_calls before = [].
Proof.
  rewrite api_chat_cases. cbv zeta.
  destruct (detectDanger (userText_of req_body)).
  - cbn [fst snd sent]. destruct (audio_speech env _) as [buffer | e] eqn:Hspeech;
      intros Hresp; injection Hresp as <-; cbn [body]; intros Hbody; [| discriminate].
    injection Hbody as <-. cbn [ChatReply.text ChatReply.audio].
    exists buffer, []. repeat split; trivial.
  - destruct (chat_completions env _) as [res | e].
    + destruct (ChatCompletion.choices res) as [| choice others].
      * cbn [fst]. intros Hresp. injection Hresp as <-. discriminate.
      * cbv zeta. cbn [fst snd sent].
        destruct (audio_speech env _) as [buffer | e] eqn:Hspeech;
          intros Hresp; injection Hresp as <-; cbn [body]; intros Hbody; [| discriminate].
        injection Hbody as <-. cbn [ChatReply.text ChatReply.audio].
        exists buffer. eexists [_]. repeat split; trivial.
    + cbn [fst]. intros Hresp. injection Hresp as <-. discriminate.
Qed.


(** ** Keywords inside a longer text *)

Lemma occurs_in_context (w text pre post : jsstring) :
  occurs_in w text -> occurs_in w (pre ++ text ++ post).
Proof.
  intros [pre' [post' ->]]. exists (pre ++ pre'), (post' ++ post).
  now rewrite <- !app_assoc.
Qed.

Lemma includes_context (w text pre post : jsstring) :
  includes text w = true -> includes (pre ++ text ++ post) w = true.
Proof. rewrite !includes_spec. apply occurs_in_context. Qed.

Lemma filter_length_mono {A} (f g : A -> bool) (l : list A) :
  (forall x, f x = true -> g x = true) ->
  (List.length (filter f l) <= List.length (filter g l))%nat.
Proof.
  intros Hfg. induction l as [| x l IH]; [reflexivity |].
  cbn [filter]. destruct (f x) eqn:Hf.
  - rewrite (Hfg x Hf). cbn [List.length]. lia.
  - destruct (g x); cbn [List.length]; lia.
Qed.

(** X8. Text around a message never hides a keyword: if [detectDanger]
    fires on [text], it fires on [pre ++ text ++ post]; every tag
    [detectICF] finds for [text] it finds for the longer text; and each
    sentiment list has at least as many words found in the longer text. *)
Theorem keywords_survive_surrounding_text (text pre post : jsstring) :
  (detectDanger text = true -> detectDanger (pre ++ text ++ post) = true)
  /\ Forall (fun tag => In tag (detectICF (pre ++ text ++ post))) (detectICF text)
  /\ hits text negativeWords <= hits (pre ++ text ++ post) negativeWords
  /\ hits text positiveWords <= hits (pre ++ text ++ post) positiveWords.
Proof.
  split; [| split; [| split]].
  - rewrite !detectDanger_spec. intros [w [Hin Hocc]]. exists w.
    split; [exact Hin | now apply occurs_in_context].
  - rewrite !detectICF_by_category. unfold detect_by_category.
    apply Forall_forall. intros tag Hin. apply in_map_iff in Hin.
    destruct Hin as [c [<- Hc]]. apply in_map. apply filter_In in Hc.
    apply filter_In. split; [tauto |]. destruct Hc as [_ Hc].
    apply category_matches_spec in Hc. apply category_matches_spec.
    destruct Hc as [w [Hin Hocc]]. exists w.
    split; [exact Hin | now apply occurs_in_context].
  - unfold hits. apply Nat2Z.inj_le, filter_length_mono.
    intros w. apply includes_context.
  - unfold hits. apply Nat2Z.inj_le, filter_length_mono.
    intros w. apply includes_context.
Qed.

(** ** The completion request *)

Lemma occurs_in_app_r (w a b : jsstring) : occurs_in w b -> occurs_in w (a ++ b).
Proof.
  intros [pre [post ->]]. exists (a ++ pre), post. now rewrite <- app_assoc.
Qed.

Lemma occurs_in_app_l (w a b : jsstring) : occurs_in w a -> occurs_in w (a ++ b).
Proof.
  intros [pre [post ->]]. exists pre, (post ++ b). now rewrite <- !app_assoc.
Qed.

Lemma occurs_in_refl (w : jsstring) : occurs_in w w.
Proof. exists [], []. simpl. now rewrite app_nil_r. Qed.

Lemma join_occurs (sep x : jsstring) (l : list jsstring) :
  In x l -> occurs_in x (join sep l).
Proof.
  induction l as [| y l IH]; [intros [] |].
  intros Hin. cbn [join]. destruct l as [| z l].
  - destruct Hin as [-> | []]. exists [], []. simpl. now rewrite app_nil_r.
  - destruct Hin as [-> | Hin].
    + exists [], (sep ++ join sep (z :: l)). reflexivity.
    + destruct (IH Hin) as [pre [post Heq]]. rewrite Heq.
      exists (y ++ sep ++ pre), post. now rewrite <- !app_assoc.
Qed.

Lemma systemPrompt_names_tag (icfList : list DomainTag.t) (score : Z) (tag : DomainTag.t) :
  In tag icfList ->
  occurs_in (DomainTag.code tag ++ js ":" ++ DomainTag.label tag)
    (systemPrompt icfList score).
Proof.
  intros Hin. unfold systemPrompt.
  assert (Hjoin : occurs_in (DomainTag.code tag ++ js ":" ++ DomainTag.label tag)
            (join (js ", ")
               (map (fun x => DomainTag.code x ++ js ":" ++ DomainTag.label x) icfList))).
  { apply join_occurs.
    apply (in_map (fun x => DomainTag.code x ++ js ":" ++ DomainTag.label x)), Hin. }
  do 18 apply occurs_in_app_r. apply occurs_in_app_l. exact Hjoin.
Qed.

(** X9. When danger is not detected, the chat handler makes exactly one
    completion call.  Its request has the two messages system and user, is
    limited to 200 tokens, carries the user's text unchanged as the user
    message, and its system message names, as [code:label], the tag of
    every category [detectICF] found, and the updated score in decimal. *)
Theorem completion_request_carries_text_tags_and_score
    (req_body : ChatRequestBody.t) (env : Env) (st : Run) :
  detectDanger (userText_of req_body) = false ->
  exists request system,
    completion_calls (sent (snd (api_chat req_body env st)))
    = completion_calls (sent st) ++ [request]
    /\ ChatCompletionRequest.max_tokens request = 200
    /\ ChatCompletionRequest.messages request
       = [ {| ChatMessage.role := js "system"; ChatMessage.content := system |};
           {| ChatMessage.role := js "user";
              ChatMessage.content := userText_of req_body |} ]
    /\ (forall tag, In tag (detectICF (userText_of req_body)) ->
          occurs_in (DomainTag.code tag ++ js ":" ++ DomainTag.label tag) system)
    /\ occurs_in
         (js "【emotionScore】" ++ nl
          ++ number_to_string (emotionScore (globals (snd (api_chat req_body env st))))
          ++ nl)
         system.
Proof.
  intros Hsafe. rewrite api_chat_cases. cbv zeta. rewrite Hsafe, updateEmotionScore_run.
  set (userText := userText_of req_body).
  set (score := score_after userText (emotionScore (globals st))).
  exists (chatRequest userText (detectICF userText) score),
         (systemPrompt (detectICF userText) score).
  split.
  - destruct (chat_completions env _) as [res | e];
      [destruct (ChatCompletion.choices res) |];
      cbn [snd sent]; rewrite completion_calls_app; reflexivity.
  - split; [reflexivity |]. split; [reflexivity |]. split.
    + intros tag Hin. now apply systemPrompt_names_tag.
    + assert (Hscore : forall run : outcome HttpResponse * Run,
                globals (snd run)
                = {| emotionScore := score;
                     emotionHistory :=
                       emotionHistory (globals st)
                       ++ [{| HistoryEntry.time := clock env;
                              HistoryEntry.score := score |}] |} ->
                occurs_in
                  (js "【emotionScore】" ++ nl
                   ++ number_to_string (emotionScore (globals (snd run))) ++ nl)
                  (systemPrompt (detectICF userText) score)).
      { intros run ->. cbn [emotionScore]. unfold systemPrompt.
        do 21 apply occurs_in_app_r. apply occurs_in_refl. }
      apply Hscore.
      destruct (chat_completions env _) as [res | e];
        [destruct (ChatCompletion.choices res) |]; reflexivity.
Qed.

(** ** The history endpoint *)



(** ** The audio encoding *)

Local Open Scope N_scope.

Lemma below_forallb (n : nat) (P : N -> bool) :
  forallb P (below n) = true -> forall i, i < N.of_nat n -> P i = true.
Proof.
  intros Hall i Hi. rewrite forallb_forall in Hall. apply Hall.
  unfold below. rewrite <- (N2Nat.id i). apply in_map, in_seq. lia.
Qed.

Lemma below_In (n : nat) (i : N) : i < N.of_nat n -> In i (below n).
Proof.
  intros Hi. unfold below. rewrite <- (N2Nat.id i). apply in_map, in_seq. lia.
Qed.

Lemma base64_digit_value (i : N) :
  i < 64 ->
  base64_value (base64_digit i) = Some i
  /\ N.eqb (base64_digit i) base64_pad = false.
Proof.
  intros Hi. pose proof (below_In 64 i Hi) as Hin. vm_compute in Hin.
  repeat (destruct Hin as [<- | Hin]; [vm_compute; split; reflexivity |]).
  destruct Hin.
Qed.

Lemma pair_ok_all (a b : N) : a < 256 -> b < 256 -> pair_ok a b = true.
Proof.
  intros Ha Hb.
  pose proof (below_forallb 256 (fun a => forallb (pair_ok a) (below 256))) as H.
  assert (Hall : forallb (fun a => forallb (pair_ok a) (below 256)) (below 256) = true).
  { vm_compute. reflexivity. }
  specialize (H Hall a Ha). cbv beta in H.
  exact (below_forallb 256 (pair_ok a) H b Hb).
Qed.

Lemma pair_facts (a b : N) :
  a < 256 -> b < 256 ->
  sextet0 a < 64 /\ sextet1 a b < 64 /\ sextet2 a b < 64 /\ sextet3 a < 64
  /\ N.lor (N.shiftl (sextet0 a) 2) (N.shiftr (sextet1 a b) 4) = a
  /\ N.land (sextet1 a b) 15 = N.shiftr b 4
  /\ N.shiftr (sextet2 a b) 2 = N.land a 15
  /\ N.land (sextet2 a b) 3 = N.shiftr b 6
  /\ N.lor (N.shiftl (N.shiftr a 4) 4) (N.land a 15) = a
  /\ N.lor (N.shiftl (N.shiftr a 6) 6) (sextet3 a) = a.
Proof.
  intros Ha Hb. pose proof (pair_ok_all a b Ha Hb) as H. unfold pair_ok in H.
  rewrite !andb_true_iff, !N.ltb_lt, !N.eqb_eq in H. tauto.
Qed.

Lemma base64_cons3 (a b c : N) (rest : list N) :
  base64 (a :: b :: c :: rest)
  = base64_digit (sextet0 a) :: base64_digit (sextet1 a b)
    :: base64_digit (sextet2 b c) :: base64_digit (sextet3 c) :: base64 rest.
Proof. reflexivity. Qed.

Lemma base64_two (a b : N) :
  base64 [a; b]
  = [base64_digit (sextet0 a); base64_digit (sextet1 a b);
     base64_digit (sextet2 b 0); base64_pad].
Proof.
  cbn [base64]. unfold sextet2. now rewrite N.shiftr_0_l, N.lor_0_r.
Qed.

Lemma base64_one (a : N) :
  base64 [a]
  = [base64_digit (sextet0 a); base64_digit (sextet1 a 0); base64_pad; base64_pad].
Proof.
  cbn [base64]. unfold sextet1. now rewrite N.shiftr_0_l, N.lor_0_r.
Qed.

Lemma base64_decode_group (c0 c1 c2 c3 x0 x1 x2 x3 : N) (rest : jsstring) :
  base64_value c0 = Some x0 -> base64_value c1 = Some x1 ->
  base64_value c2 = Some x2 -> base64_value c3 = Some x3 ->
  N.eqb c2 base64_pad = false -> N.eqb c3 base64_pad = false ->
  base64_decode (c0 :: c1 :: c2 :: c3 :: rest)
  = match base64_decode rest with
    | Some bytes =>
      Some (N.lor (N.shiftl x0 2) (N.shiftr x1 4)
            :: N.lor (N.shiftl (N.land x1 15) 4) (N.shiftr x2 2)
            :: N.lor (N.shiftl (N.land x2 3) 6) x3 :: bytes)
    | None => None
    end.
Proof.
  intros H0 H1 H2 H3 P2 P3. cbn [base64_decode]. now rewrite H0, H1, P2, H2, P3, H3.
Qed.

Lemma base64_decode_two (c0 c1 c2 x0 x1 x2 : N) :
  base64_value c0 = Some x0 -> base64_value c1 = Some x1 ->
  base64_value c2 = Some x2 -> N.eqb c2 base64_pad = false ->
  base64_decode [c0; c1; c2; base64_pad]
  = Some [N.lor (N.shiftl x0 2) (N.shiftr x1 4);
          N.lor (N.shiftl (N.land x1 15) 4) (N.shiftr x2 2)].
Proof.
  intros H0 H1 H2 P2. cbn [base64_decode]. now rewrite H0, H1, P2, H2, N.eqb_refl.
Qed.

Lemma base64_decode_one (c0 c1 x0 x1 : N) :
  base64_value c0 = Some x0 -> base64_value c1 = Some x1 ->
  base64_decode [c0; c1; base64_pad; base64_pad]
  = Some [N.lor (N.shiftl x0 2) (N.shiftr x1 4)].
Proof.
  intros H0 H1. cbn [base64_decode]. now rewrite H0, H1, !N.eqb_refl.
Qed.

Lemma list_ind3 {A} (P : list A -> Prop) :
  P [] -> (forall a, P [a]) -> (forall a b, P [a; b]) ->
  (forall a b c l, P l -> P (a :: b :: c :: l)) ->
  forall l, P l.
Proof.
  intros H0 H1 H2 H3 l.
  assert (H : P l /\ (forall a, P (a :: l)) /\ (forall a b, P (a :: b :: l))).
  { induction l as [| x l [IH0 [IH1 IH2]]]; [auto |].
    split; [apply IH1 |]. split; [intros a; apply IH2 |].
    intros a b. now apply H3. }
  apply H.
Qed.

(** X11. [base64] loses nothing: for bytes (numbers below 256), decoding
    the text it produces gives the bytes back; the text has 4 characters
    for every 3 bytes begun. *)
Theorem base64_round_trip (bytes : list N) :
  Forall (fun byte => byte < 256) bytes ->
  base64_decode (base64 bytes) = Some bytes
  /\ List.length (base64 bytes) = (4 * ((List.length bytes + 2) / 3))%nat.
Proof.
  induction bytes as [| a | a b | a b c bytes IH] using list_ind3; intros Hall.
  - split; reflexivity.
  - split; [| reflexivity]. inversion Hall as [| ? ? Ha _]; subst.
    destruct (pair_facts a 0 Ha eq_refl) as [L0 [L1 [_ [_ [Ea _]]]]].
    rewrite base64_one.
    rewrite (base64_decode_one _ _ _ _ (proj1 (base64_digit_value _ L0))
               (proj1 (base64_digit_value _ L1))).
    now rewrite Ea.
  - split; [| reflexivity]. inversion Hall as [| ? ? Ha Hall']; subst.
    inversion Hall' as [| ? ? Hb _]; subst.
    destruct (pair_facts a b Ha Hb) as [L0 [L1 [_ [_ [Ea [E1 _]]]]]].
    destruct (pair_facts b 0 Hb eq_refl) as [_ [_ [L2 [_ [_ [_ [E2 [_ [Eb _]]]]]]]]].
    rewrite base64_two.
    rewrite (base64_decode_two _ _ _ _ _ _ (proj1 (base64_digit_value _ L0))
               (proj1 (base64_digit_value _ L1)) (proj1 (base64_digit_value _ L2))
               (proj2 (base64_digit_value _ L2))).
    now rewrite Ea, E1, E2, Eb.
  - inversion Hall as [| ? ? Ha Hall1]; subst.
    inversion Hall1 as [| ? ? Hb Hall2]; subst.
    inversion Hall2 as [| ? ? Hc Hall3]; subst.
    destruct (IH Hall3) as [IHd IHl].
    destruct (pair_facts a b Ha Hb) as [L0 [L1 [_ [_ [Ea [E1 _]]]]]].
    destruct (pair_facts b c Hb Hc) as [_ [_ [L2 [_ [_ [_ [E2 [E2' [Eb _]]]]]]]]].
    destruct (pair_facts c 0 Hc eq_refl) as [_ [_ [_ [L3 [_ [_ [_ [_ [_ Ec]]]]]]]]].
    rewrite base64_cons3. split.
    + rewrite (base64_decode_group _ _ _ _ _ _ _ _ _
                 (proj1 (base64_digit_value _ L0)) (proj1 (base64_digit_value _ L1))
                 (proj1 (base64_digit_value _ L2)) (proj1 (base64_digit_value _ L3))
                 (proj2 (base64_digit_value _ L2)) (proj2 (base64_digit_value _ L3))).
      now rewrite IHd, Ea, E1, E2, Eb, E2', Ec.
    + cbn [List.length]. rewrite IHl.
      replace (S (S (S (List.length bytes))) + 2)%nat
        with (1 * 3 + (List.length bytes + 2))%nat by lia.
      rewrite Nat.div_add_l by lia. lia.
Qed.

Example base64_decode_runs :
  base64_decode (js "TWFu") = Some [77; 97; 110]
  /\ base64_decode (js "TWE=") = Some [77; 97]
  /\ base64_decode (js "TQ==") = Some [77]
  /\ base64_decode (js "TWE") = None
  /\ base64_decode (js "T=Fu") = None.
Proof. vm_compute. repeat split. Qed.

Local Open Scope Z_scope.

End Server.

(** * Concrete runs *)

(** The scenario of the school day: "楽しかった" does not contain the listed
    "楽しい", so the score stays at 70; the school and relationships tags
    are found. *)
Example school_day_run :
  fst (api_chat sample_icfTags (request_of "今日は学校で友達と話して楽しかった")
         sample_env (fresh_run initial_globals))
  = Returned
      {| status := 200;
         body := ChatBody
           {| ChatReply.text := js "そうなんですね。";
              ChatReply.audio := js "SUQz";
              ChatReply.danger := false;
              ChatReply.score := 70;
              ChatReply.icf := [IcfTags.school sample_icfTags;
                                IcfTags.relationships sample_icfTags] |} |}.
Proof. vm_compute. reflexivity. Qed.

Lemma danger_bypasses_completion_witness :
  (exists w, In w dangerWords /\ occurs_in w (js "もう無理、消えたい"))
  /\ completion_calls
       (sent (snd (api_chat sample_icfTags (request_of "もう無理、消えたい")
                     sample_env (fresh_run initial_globals))))
     = [].
Proof.
  assert (Hword : exists w, In w dangerWords /\ occurs_in w (js "もう無理、消えたい")).
  { apply detectDanger_spec. vm_compute. reflexivity. }
  split; [exact Hword |].
  exact (proj1 (danger_bypasses_completion sample_icfTags
                  (request_of "もう無理、消えたい") (js "もう無理、消えたい")
                  sample_env (fresh_run initial_globals) eq_refl Hword)).
Defined.

(** C2 (as stated) fails: for the message "もう無理、消えたい", with both
    endpoints answering, the reply is flagged as danger and its text is not
    [dangerResponse] followed by [breathingGuide]; it does not end with
    [breathingGuide] whatever precedes, and nowhere has the hold step
    ("2秒") of the script. *)
Lemma danger_reply_without_breathingGuide :
  exists reply,
    fst (api_chat sample_icfTags (request_of "もう無理、消えたい")
           sample_env (fresh_run initial_globals))
    = Returned {| status := 200; body := ChatBody reply |}
    /\ ChatReply.danger reply = true
    /\ ChatReply.text reply <> dangerResponse ++ breathingGuide
    /\ ~ (exists safety, ChatReply.text reply = safety ++ breathingGuide)
    /\ includes (ChatReply.text reply) (js "2秒") = false.
Proof.
  eexists. split; [vm_compute; reflexivity |]. cbn [ChatReply.danger ChatReply.text].
  split; [reflexivity |].
  assert (Hno : ~ occurs_in breathingGuide dangerResponse).
  { apply includes_false_iff. vm_compute. reflexivity. }
  split; [| split].
  - intros Heq. apply (f_equal (@List.length N)) in Heq. vm_compute in Heq. discriminate.
  - intros [safety Heq]. apply Hno. exists safety, []. now rewrite app_nil_r.
  - vm_compute. reflexivity.
Qed.

Lemma danger_reply_is_dangerResponse_witness :
  let reply :=
    {| ChatReply.text := dangerResponse;
       ChatReply.audio := js "SUQz";
       ChatReply.danger := true;
       ChatReply.score := 65;
       ChatReply.icf := [] |} in
  detectDanger (userText_of (request_of "もう無理、消えたい")) = true
  /\ fst (api_chat sample_icfTags (request_of "もう無理、消えたい")
            sample_env (fresh_run initial_globals))
     = Returned {| status := 200; body := ChatBody reply |}
  /\ ChatReply.text reply = dangerResponse
  /\ includes (ChatReply.text reply) breathingGuide = false.
Proof.
  cbv zeta.
  assert (Hdanger : detectDanger (userText_of (request_of "もう無理、消えたい")) = true).
  { vm_compute. reflexivity. }
  assert (Hrun : fst (api_chat sample_icfTags (request_of "もう無理、消えたい")
                        sample_env (fresh_run initial_globals))
                 = Returned
                     {| status := 200;
                        body := ChatBody
                          {| ChatReply.text := dangerResponse;
                             ChatReply.audio := js "SUQz";
                             ChatReply.danger := true;
                             ChatReply.score := 65;
                             ChatReply.icf := [] |} |}).
  { vm_compute. reflexivity. }
  split; [exact Hdanger |]. split; [exact Hrun |].
  pose proof (danger_reply_is_dangerResponse sample_icfTags _ _ _ _ _
                Hdanger Hrun eq_refl) as H.
  split; [exact (proj1 (proj2 H)) | exact (proj1 (proj2 (proj2 (proj2 H))))].
Defined.

Lemma score_stays_in_range_witness :
  let calls := [(sample_env, js "疲れてつらい"); (sample_env, js "ありがとう、安心した")] in
  score_in_range (emotionScore (globals (fresh_run initial_globals)))
  /\ fst (update_all calls (fresh_run initial_globals)) = [60; 70]
  /\ Forall (fun score => 0 <= score <= 100)
       (fst (update_all calls (fresh_run initial_globals))).
Proof.
  cbv zeta.
  assert (Hstart : score_in_range (emotionScore (globals (fresh_run initial_globals)))).
  { unfold score_in_range. simpl. lia. }
  split; [exact Hstart |]. split; [vm_compute; reflexivity |].
  exact (proj1 (proj2 (score_stays_in_range _ (fresh_run initial_globals) Hstart))).
Defined.

Lemma update_without_keyword_keeps_score_witness :
  none_occurs negativeWords (js "こんにちは")
  /\ none_occurs positiveWords (js "こんにちは")
  /\ fst (updateEmotionScore (js "こんにちは") sample_env (fresh_run initial_globals))
     = Returned 70.
Proof.
  assert (Hneg : none_occurs negativeWords (js "こんにちは")).
  { apply none_occurs_check. vm_compute. reflexivity. }
  assert (Hpos : none_occurs positiveWords (js "こんにちは")).
  { apply none_occurs_check. vm_compute. reflexivity. }
  assert (Hstart : score_in_range (emotionScore (globals (fresh_run initial_globals)))).
  { unfold score_in_range. simpl. lia. }
  split; [exact Hneg |]. split; [exact Hpos |].
  exact (proj1 (update_without_keyword_keeps_score (js "こんにちは") sample_env
                  (fresh_run initial_globals) Hstart Hneg Hpos)).
Defined.

Lemma first_update_returns_70_witness :
  none_occurs negativeWords (js "おはよう")
  /\ none_occurs positiveWords (js "おはよう")
  /\ fst (updateEmotionScore (js "おはよう") sample_env (fresh_run initial_globals))
     = Returned 70.
Proof.
  assert (Hneg : none_occurs negativeWords (js "おはよう")).
  { apply none_occurs_check. vm_compute. reflexivity. }
  assert (Hpos : none_occurs positiveWords (js "おはよう")).
  { apply none_occurs_check. vm_compute. reflexivity. }
  split; [exact Hneg |]. split; [exact Hpos |].
  exact (proj2 (proj2 first_update_returns_70) (js "おはよう") sample_env Hneg Hpos).
Defined.

Lemma update_appends_one_entry_and_is_kept_witness :
  let run := api_chat sample_icfTags (request_of "疲れた") speechless_env
               (fresh_run initial_globals) in
  fst run = Returned server_error_response
  /\ exists score,
       emotionScore (globals (snd run)) = score
       /\ emotionHistory (globals (snd run))
          = [{| HistoryEntry.time := 1700000000000; HistoryEntry.score := score |}].
Proof.
  cbv zeta.
  assert (Hfail : fst (api_chat sample_icfTags (request_of "疲れた") speechless_env
                         (fresh_run initial_globals))
                  = Returned server_error_response).
  { vm_compute. reflexivity. }
  split; [exact Hfail |].
  exact (proj2 (proj2 (update_appends_one_entry_and_is_kept sample_icfTags))
           (request_of "疲れた") speechless_env (fresh_run initial_globals) Hfail).
Defined.

Lemma low_score_appends_breathingGuide_witness :
  let req_body := request_of "疲れてつらい、不安で悲しい、こわい" in
  let reply :=
    {| ChatReply.text := js "そうなんですね。" ++ breathingGuide;
       ChatReply.audio := js "SUQz";
       ChatReply.danger := false;
       ChatReply.score := 45;
       ChatReply.icf := [IcfTags.emotion sample_icfTags;
                         IcfTags.stress sample_icfTags] |} in
  detectDanger (userText_of req_body) = false
  /\ fst (api_chat sample_icfTags req_body sample_env (fresh_run initial_globals))
     = Returned {| status := 200; body := ChatBody reply |}
  /\ exists score st1 aiText st2,
       updateEmotionScore (userText_of req_body) sample_env (fresh_run initial_globals)
       = (Returned score, st1)
       /\ generateAIResponse (userText_of req_body)
            (detectICF sample_icfTags (userText_of req_body)) score sample_env st1
          = (Returned aiText, st2)
       /\ ChatReply.danger reply = false
       /\ ChatReply.score reply = score
       /\ (score < 50 -> ChatReply.text reply = aiText ++ breathingGuide)
       /\ (50 <= score -> ChatReply.text reply = aiText).
Proof.
  cbv zeta.
  assert (Hsafe : detectDanger
                    (userText_of (request_of "疲れてつらい、不安で悲しい、こわい")) = false).
  { vm_compute. reflexivity. }
  assert (Hrun : fst (api_chat sample_icfTags
                        (request_of "疲れてつらい、不安で悲しい、こわい")
                        sample_env (fresh_run initial_globals))
                 = Returned
                     {| status := 200;
                        body := ChatBody
                          {| ChatReply.text := js "そうなんですね。" ++ breathingGuide;
                             ChatReply.audio := js "SUQz";
                             ChatReply.danger := false;
                             ChatReply.score := 45;
                             ChatReply.icf := [IcfTags.emotion sample_icfTags;
                                               IcfTags.stress sample_icfTags] |} |}).
  { vm_compute. reflexivity. }
  split; [exact Hsafe |]. split; [exact Hrun |].
  exact (low_score_appends_breathingGuide sample_icfTags _ _ _ _ _ Hsafe Hrun eq_refl).
Defined.

Lemma missing_message_is_served_as_empty_text_witness :
  score_in_range (emotionScore (globals (fresh_run initial_globals)))
  /\ fst (api_chat sample_icfTags {| ChatRequestBody.message := None |}
            sample_env (fresh_run initial_globals))
     = Returned
         {| status := 200;
            body := ChatBody
              {| ChatReply.text := js "そうなんですね。";
                 ChatReply.audio := base64 [73%N; 68%N; 51%N];
                 ChatReply.danger := false;
                 ChatReply.score := 70;
                 ChatReply.icf := [] |} |}.
Proof.
  assert (Hstart : score_in_range (emotionScore (globals (fresh_run initial_globals)))).
  { unfold score_in_range. simpl. lia. }
  split; [exact Hstart |].
  pose proof (missing_message_is_served_as_empty_text sample_icfTags sample_env
                (fresh_run initial_globals) Hstart) as H.
  cbv zeta in H.
  exact (proj1 (proj2 (proj2 (proj2 (proj2 (proj2 (proj2 H))))))
           (sample_completion (js "そうなんですね。")) _ [] [73%N; 68%N; 51%N]
           eq_refl eq_refl eq_refl).
Defined.

(** ** Concrete runs of the further properties *)

Lemma update_moves_score_within_bounds_witness :
  score_in_range (emotionScore (globals (fresh_run initial_globals)))
  /\ exists score,
       fst (updateEmotionScore (js "疲れてつらい") sample_env (fresh_run initial_globals))
       = Returned score
       /\ 25 <= score <= 105.
Proof.
  assert (Hstart : score_in_range (emotionScore (globals (fresh_run initial_globals)))).
  { unfold score_in_range. simpl. lia. }
  split; [exact Hstart |].
  destruct (update_moves_score_within_bounds (js "疲れてつらい") sample_env
              (fresh_run initial_globals) Hstart) as [score [Hrun [Hbounds _]]].
  exists score. split; [exact Hrun | exact Hbounds].
Defined.

Lemma reachable_globals_are_consistent_witness :
  let g := globals (snd (api_chat sample_icfTags (request_of "疲れた") speechless_env
                           (fresh_run initial_globals))) in
  reachable sample_icfTags g
  /\ score_in_range (emotionScore g)
  /\ (5 | emotionScore g).
Proof.
  cbv zeta.
  assert (Hg : reachable sample_icfTags
                 (globals (snd (api_chat sample_icfTags (request_of "疲れた")
                                  speechless_env (fresh_run initial_globals))))).
  { exact (reachable_chat sample_icfTags initial_globals (request_of "疲れた")
             speechless_env [] (reachable_start sample_icfTags)). }
  split; [exact Hg |].
  pose proof (reachable_globals_are_consistent sample_icfTags _ Hg) as H.
  split; [exact (proj1 H) | exact (proj1 (proj2 H))].
Defined.

Lemma reply_audio_is_speech_of_reply_text_witness :
  let req_body := request_of "疲れてつらい、不安で悲しい、こわい" in
  let reply :=
    {| ChatReply.text := js "そうなんですね。" ++ breathingGuide;
       ChatReply.audio := js "SUQz";
       ChatReply.danger := false;
       ChatReply.score := 45;
       ChatReply.icf := [IcfTags.emotion sample_icfTags;
                         IcfTags.stress sample_icfTags] |} in
  fst (api_chat sample_icfTags req_body sample_env (fresh_run initial_globals))
  = Returned {| status := 200; body := ChatBody reply |}
  /\ exists buffer before,
       ChatReply.audio reply = base64 buffer
       /\ sent (snd (api_chat sample_icfTags req_body sample_env
                       (fresh_run initial_globals)))
          = before ++ [AudioSpeechCreate (speechRequest (ChatReply.text reply))].
Proof.
  cbv zeta.
  assert (Hrun : fst (api_chat sample_icfTags
                        (request_of "疲れてつらい、不安で悲しい、こわい")
                        sample_env (fresh_run initial_globals))
                 = Returned
                     {| status := 200;
                        body := ChatBody
                          {| ChatReply.text := js "そうなんですね。" ++ breathingGuide;
                             ChatReply.audio := js "SUQz";
                             ChatReply.danger := false;
                             ChatReply.score := 45;
                             ChatReply.icf := [IcfTags.emotion sample_icfTags;
                                               IcfTags.stress sample_icfTags] |} |}).
  { vm_compute. reflexivity. }
  split; [exact Hrun |].
  destruct (reply_audio_is_speech_of_reply_text sample_icfTags _ _ _ _ _ Hrun eq_refl)
    as [buffer [before [_ [Haudio [Hsent _]]]]].
  exists buffer, before. split; [exact Haudio | exact Hsent].
Defined.

Lemma keywords_survive_surrounding_text_witness :
  detectDanger (js "消えたい") = true
  /\ detectDanger (js "もう" ++ js "消えたい" ++ js "です") = true.
Proof.
  assert (Hdanger : detectDanger (js "消えたい") = true) by (vm_compute; reflexivity).
  split; [exact Hdanger |].
  exact (proj1 (keywords_survive_surrounding_text sample_icfTags
                  (js "消えたい") (js "もう") (js "です")) Hdanger).
Defined.

Lemma completion_request_carries_text_tags_and_score_witness :
  let req_body := request_of "今日は学校で友達と話して楽しかった" in
  detectDanger (userText_of req_body) = false
  /\ exists request,
       completion_calls
         (sent (snd (api_chat sample_icfTags req_body sample_env
                       (fresh_run initial_globals))))
       = [request]
       /\ ChatCompletionRequest.max_tokens request = 200.
Proof.
  cbv zeta.
  assert (Hsafe : detectDanger
                    (userText_of (request_of "今日は学校で友達と話して楽しかった"))
                  = false).
  { vm_compute. reflexivity. }
  split; [exact Hsafe |].
  destruct (completion_request_carries_text_tags_and_score sample_icfTags _
              sample_env (fresh_run initial_globals) Hsafe)
    as [request [system [Hcalls [Hmax _]]]].
  exists request. split; [exact Hcalls | exact Hmax].
Defined.

Lemma base64_round_trip_witness :
  Forall (fun byte => (byte < 256)%N) [73%N; 68%N; 51%N]
  /\ base64_decode (base64 [73%N; 68%N; 51%N]) = Some [73%N; 68%N; 51%N].
Proof.
  assert (Hbytes : Forall (fun byte => (byte < 256)%N) [73%N; 68%N; 51%N]).
  { repeat constructor. }
  split; [exact Hbytes |].
  exact (proj1 (base64_round_trip [73%N; 68%N; 51%N] Hbytes)).
Defined.
